(** * Mesh protocol engine of the device firmware (mesh_network.cpp)

    A shallow embedding of the ESP-NOW mesh engine: the frame layout,
    the peer table and the routing table (fixed arrays with a live
    count), the frame processor and the periodic driver, followed by
    the properties of the specification settled against that code.

    Conventions.
    - uint8_t / uint16_t / uint32_t values are [Z] with the wrap-around
      written out ([u8], [u16], [u32]).
    - The arrays [peers] and [routingTable] are lists of [MAX_PEERS]
      slots next to their counters; slot [i] is read with [l !! i] and
      written with [<[i:=x]> l].
    - The globals are one record [Mesh], threaded through every function;
      a function that sends or delivers returns the list of its effects.
    - [millis()] is the argument [now] of each entry point.
    - Serial logging is not modelled. *)

From Stdlib Require Import ZArith List Bool Lia.
From stdpp Require Import base list.

(** ** Configuration (mesh_network.h / mesh_network.cpp) *)

Definition MESH_CHANNEL : Z := 1.
Definition MAX_PEERS : nat := 20.
Definition HEARTBEAT_INTERVAL : Z := 30000.
Definition PEER_TIMEOUT : Z := 120000.
Definition MAX_HOP_COUNT : Z := 5.
Definition MAX_DATA_SIZE : Z := 200.

Definition MSG_DISCOVERY : Z := 1.
Definition MSG_HEARTBEAT : Z := 2.
Definition MSG_DATA : Z := 3.
Definition MSG_ROUTE_REQUEST : Z := 4.
Definition MSG_ROUTE_REPLY : Z := 5.
Definition MSG_ACK : Z := 6.

(** ** Machine integers *)

Definition u8 (x : Z) : Z := (x mod 256)%Z.
Definition u16 (x : Z) : Z := (x mod 65536)%Z.
Definition u32 (x : Z) : Z := (x mod 4294967296)%Z.

(** ** Addresses: six bytes, compared and copied as the code does *)

Definition Mac := list Z.

(** [memcmp(a, b, 6) == 0] *)
Definition memcmp6 (a b : list Z) : bool :=
  forallb (fun i => (nth i a 0 =? nth i b 0)%Z) (seq 0 6).

(** [memcpy(dst, src, 6)]: the six bytes at [src] *)
Definition memcpy6 (src : list Z) : Mac :=
  map (fun i => nth i src 0%Z) (seq 0 6).

Definition broadcast_addr : Mac := [255; 255; 255; 255; 255; 255]%Z.

(** ** Structures *)

Record MeshPeer := mkPeer {
  peer_mac : Mac;
  peer_rssi : Z;
  peer_lastSeen : Z;
  peer_hopCount : Z;
  peer_isGateway : bool;
  peer_isActive : bool
}.

(** [msg_data] holds the payload array from index 0; [data[i]] is
    [nth i (msg_data m) 0].  For a frame built locally only the bytes
    the code writes are listed: the link driver is given
    [18 + dataLen] bytes, so nothing behind them is transmitted. *)
Record MeshMessage := mkMsg {
  msg_type : Z;
  msg_srcMac : Mac;
  msg_dstMac : Mac;
  msg_hopCount : Z;
  msg_sequenceNum : Z;
  msg_dataLen : Z;
  msg_data : list Z
}.

Record RouteEntry := mkRoute {
  route_destination : Mac;
  route_nextHop : Mac;
  route_hopCount : Z;
  route_lastUpdated : Z
}.

(** The file-scope globals.  [onDataReceived] records whether a
    callback is registered. *)
Record Mesh := mkMesh {
  myMac : Mac;
  peers : list MeshPeer;
  peerCount : nat;
  routingTable : list RouteEntry;
  routeCount : nat;
  sequenceNumber : Z;
  isGateway : bool;
  lastHeartbeat : Z;
  onDataReceived : bool
}.

(** What leaves the engine: frames handed to the link driver and
    payloads handed to the application. *)
Inductive Effect :=
| Broadcast (msg : MeshMessage) (msgLen : Z)
| Unicast (dest : Mac) (msg : MeshMessage) (msgLen : Z)
| Deliver (src : Mac) (data : list Z) (len : Z).

Definition zero_mac : Mac := [0; 0; 0; 0; 0; 0]%Z.
Definition zero_peer : MeshPeer := mkPeer zero_mac 0 0 0 false false.
Definition zero_route : RouteEntry := mkRoute zero_mac zero_mac 0 0.

(** Zero-initialised globals, as at program start. *)
Definition globals : Mesh :=
  mkMesh zero_mac (replicate MAX_PEERS zero_peer) 0
         (replicate MAX_PEERS zero_route) 0 0 false 0 false.

(** Field assignments on the globals. *)
Definition set_myMac (m : Mac) (s : Mesh) : Mesh :=
  mkMesh m (peers s) (peerCount s) (routingTable s) (routeCount s)
         (sequenceNumber s) (isGateway s) (lastHeartbeat s) (onDataReceived s).
Definition set_peers (ps : list MeshPeer) (n : nat) (s : Mesh) : Mesh :=
  mkMesh (myMac s) ps n (routingTable s) (routeCount s)
         (sequenceNumber s) (isGateway s) (lastHeartbeat s) (onDataReceived s).
Definition set_routes (rs : list RouteEntry) (n : nat) (s : Mesh) : Mesh :=
  mkMesh (myMac s) (peers s) (peerCount s) rs n
         (sequenceNumber s) (isGateway s) (lastHeartbeat s) (onDataReceived s).
Definition set_sequenceNumber (q : Z) (s : Mesh) : Mesh :=
  mkMesh (myMac s) (peers s) (peerCount s) (routingTable s) (routeCount s)
         q (isGateway s) (lastHeartbeat s) (onDataReceived s).
Definition set_isGateway (b : bool) (s : Mesh) : Mesh :=
  mkMesh (myMac s) (peers s) (peerCount s) (routingTable s) (routeCount s)
         (sequenceNumber s) b (lastHeartbeat s) (onDataReceived s).
Definition set_lastHeartbeat (t : Z) (s : Mesh) : Mesh :=
  mkMesh (myMac s) (peers s) (peerCount s) (routingTable s) (routeCount s)
         (sequenceNumber s) (isGateway s) t (onDataReceived s).
Definition set_onDataReceived (b : bool) (s : Mesh) : Mesh :=
  mkMesh (myMac s) (peers s) (peerCount s) (routingTable s) (routeCount s)
         (sequenceNumber s) (isGateway s) (lastHeartbeat s) b.

(** [sequenceNumber++] on a uint16_t: the old value is used, the
    counter wraps. *)
Definition next_seq (s : Mesh) : Z * Mesh :=
  (sequenceNumber s, set_sequenceNumber (u16 (sequenceNumber s + 1)) s).

Definition gateway_flag (b : bool) : Z := if b then 1%Z else 0%Z.

(** ** Message sending *)

(** [sizeof(MeshMessage) - 200 + msg->dataLen] stored in a uint16_t *)
Definition msgLen_of (msg : MeshMessage) : Z := u16 (18 + msg_dataLen msg).

Definition sendBroadcast (msg : MeshMessage) : Effect :=
  Broadcast msg (msgLen_of msg).

(** The registration of [dest] with the link driver is the driver's
    state; the frame goes to [dest] either way. *)
Definition sendUnicast (dest : Mac) (msg : MeshMessage) : Effect :=
  Unicast dest msg (msgLen_of msg).

Definition sendDiscovery (s : Mesh) : Mesh * list Effect :=
  let '(q, s1) := next_seq s in
  let msg := mkMsg MSG_DISCOVERY (memcpy6 (myMac s)) broadcast_addr 0 q 1
                   [gateway_flag (isGateway s)] in
  (s1, [sendBroadcast msg]).

Definition sendHeartbeat (s : Mesh) : Mesh * list Effect :=
  let '(q, s1) := next_seq s in
  let msg := mkMsg MSG_HEARTBEAT (memcpy6 (myMac s)) broadcast_addr 0 q 2
                   [u8 (Z.of_nat (peerCount s)); gateway_flag (isGateway s)] in
  (s1, [sendBroadcast msg]).

(** ** Peer management *)

(** The loop [for (i = ...; i < count; i++) if (test(table[i])) return i;]
    with [n] iterations left. *)
Fixpoint find_from {A : Type} (test : A -> bool) (table : list A)
    (n i : nat) : option nat :=
  match n with
  | O => None
  | S n' =>
      match table !! i with
      | Some x => if test x then Some i else find_from test table n' (S i)
      | None => None
      end
  end.

(** [findPeer]: [Some i] is the index returned, [None] is [-1]. *)
Definition findPeer (mac : Mac) (s : Mesh) : option nat :=
  find_from (fun p => memcmp6 (peer_mac p) mac) (peers s) (peerCount s) 0.

(** [now - peers[i].lastSeen] in uint32_t arithmetic *)
Definition age (now : Z) (p : MeshPeer) : Z := u32 (now - peer_lastSeen p).

Definition fresh (now : Z) (p : MeshPeer) : bool :=
  (age now p <? PEER_TIMEOUT)%Z.

(** The compaction loop of [removeStalePeers], [n] iterations left,
    at read index [i] and write index [writeIdx]. *)
Fixpoint removeStale_loop (now : Z) (n i writeIdx : nat)
    (ps : list MeshPeer) : list MeshPeer * nat :=
  match n with
  | O => (ps, writeIdx)
  | S n' =>
      match ps !! i with
      | Some p =>
          if fresh now p
          then removeStale_loop now n' (S i) (S writeIdx)
                 (if decide (writeIdx = i) then ps else <[writeIdx := p]> ps)
          else removeStale_loop now n' (S i) writeIdx ps
      | None => (ps, writeIdx)
      end
  end.

Definition removeStalePeers (now : Z) (s : Mesh) : Mesh :=
  let '(ps, w) := removeStale_loop now (peerCount s) 0 0 (peers s) in
  set_peers ps w s.

(** [addPeer]: the index of the new slot, or [None] for [-1]. *)
Definition addPeer (now : Z) (mac : Mac) (rssi hopCount : Z)
    (isGatewayPeer : bool) (s : Mesh) : option nat * Mesh :=
  let s1 := if MAX_PEERS <=? peerCount s then removeStalePeers now s else s in
  if (MAX_PEERS <=? peerCount s) && (MAX_PEERS <=? peerCount s1)
  then (None, s1)
  else
    let idx := peerCount s1 in
    (Some idx,
     set_peers
       (<[idx := mkPeer (memcpy6 mac) rssi now hopCount isGatewayPeer true]>
          (peers s1))
       (S idx) s1).

(** ** Routing table *)

(** [findRoute]: the index of the entry pointed to, [None] for nullptr. *)
Definition findRoute (dest : list Z) (s : Mesh) : option nat :=
  find_from (fun r => memcmp6 (route_destination r) dest)
            (routingTable s) (routeCount s) 0.

Definition updateRoute (now : Z) (dest nextHop : list Z) (hopCount : Z)
    (s : Mesh) : Mesh :=
  match findRoute dest s with
  | Some i =>
      match routingTable s !! i with
      | Some e =>
          let e1 := if (hopCount <? route_hopCount e)%Z
                    then mkRoute (route_destination e) (memcpy6 nextHop)
                                 hopCount (route_lastUpdated e)
                    else e in
          let e2 := mkRoute (route_destination e1) (route_nextHop e1)
                            (route_hopCount e1) now in
          set_routes (<[i := e2]> (routingTable s)) (routeCount s) s
      | None => s
      end
  | None =>
      if routeCount s <? MAX_PEERS
      then set_routes
             (<[routeCount s := mkRoute (memcpy6 dest) (memcpy6 nextHop)
                                        hopCount now]> (routingTable s))
             (S (routeCount s)) s
      else s
  end.

(** ** Message processing *)

Definition data_at (msg : MeshMessage) (i : nat) : Z := nth i (msg_data msg) 0%Z.

(** [msg->hopCount++] on a uint8_t field *)
Definition bump_hop (msg : MeshMessage) : MeshMessage :=
  mkMsg (msg_type msg) (msg_srcMac msg) (msg_dstMac msg)
        (u8 (msg_hopCount msg + 1)) (msg_sequenceNum msg)
        (msg_dataLen msg) (msg_data msg).

Definition handleDiscovery (now : Z) (msg : MeshMessage) (s : Mesh)
    : Mesh * list Effect :=
  let '(s1, out) :=
    if (msg_hopCount msg <? 3)%Z
    then
      let '(q, s1) := next_seq s in
      let reply := mkMsg MSG_DISCOVERY (memcpy6 (myMac s))
                         (memcpy6 (msg_srcMac msg))
                         (u8 (msg_hopCount msg + 1)) q 1
                         [gateway_flag (isGateway s)] in
      (s1, [sendUnicast (msg_srcMac msg) reply])
    else (s, []) in
  (updateRoute now (msg_srcMac msg) (msg_srcMac msg) 1 s1, out).

Definition handleData (msg : MeshMessage) (s : Mesh) : Mesh * list Effect :=
  if memcmp6 (msg_dstMac msg) (myMac s)
  then
    (s, if onDataReceived s
        then [Deliver (msg_srcMac msg) (msg_data msg) (msg_dataLen msg)]
        else [])
  else if (msg_hopCount msg <? 5)%Z
  then
    let msg1 := bump_hop msg in
    match findRoute (msg_dstMac msg1) s with
    | Some i =>
        match routingTable s !! i with
        | Some r => (s, [sendUnicast (route_nextHop r) msg1])
        | None => (s, [])
        end
    | None => (s, [sendBroadcast msg1])
    end
  else (s, []).

Definition handleRouteRequest (msg : MeshMessage) (s : Mesh)
    : Mesh * list Effect :=
  let route := match findRoute (msg_data msg) s with
               | Some i => routingTable s !! i
               | None => None
               end in
  if bool_decide (is_Some route) || memcmp6 (msg_data msg) (myMac s)
  then
    let '(q, s1) := next_seq s in
    let adv := match route with
               | Some r => u8 (route_hopCount r + 1)
               | None => 1%Z
               end in
    let reply := mkMsg MSG_ROUTE_REPLY (memcpy6 (myMac s))
                       (memcpy6 (msg_srcMac msg)) 0 q 7
                       (memcpy6 (msg_data msg) ++ [adv]) in
    (s1, [sendUnicast (msg_srcMac msg) reply])
  else if (msg_hopCount msg <? 5)%Z
  then (s, [sendBroadcast (bump_hop msg)])
  else (s, []).

Definition handleRouteReply (now : Z) (msg : MeshMessage) (s : Mesh) : Mesh :=
  updateRoute now (msg_data msg) (msg_srcMac msg) (data_at msg 6) s.

(** [peers[peerIdx].lastSeen = millis(); peers[peerIdx].hopCount = ...] *)
Definition refresh_peer (now hop : Z) (p : MeshPeer) : MeshPeer :=
  mkPeer (peer_mac p) (peer_rssi p) now hop (peer_isGateway p) (peer_isActive p).

(** The first half of [processMessage]: the peer table update. *)
Definition update_peer_info (now : Z) (msg : MeshMessage) (s : Mesh) : Mesh :=
  match findPeer (msg_srcMac msg) s with
  | None =>
      snd (addPeer now (msg_srcMac msg) (-50) (msg_hopCount msg)
                   (data_at msg 0 =? 1)%Z s)
  | Some peerIdx =>
      match peers s !! peerIdx with
      | Some p =>
          set_peers (<[peerIdx := refresh_peer now (msg_hopCount msg) p]> (peers s))
                    (peerCount s) s
      | None => s
      end
  end.

(** The [switch (msg->type)]; MSG_ACK and unknown types have no case. *)
Definition dispatch (now : Z) (msg : MeshMessage) (s : Mesh)
    : Mesh * list Effect :=
  if (msg_type msg =? MSG_DISCOVERY)%Z then handleDiscovery now msg s
  else if (msg_type msg =? MSG_HEARTBEAT)%Z then (s, [])
  else if (msg_type msg =? MSG_DATA)%Z then handleData msg s
  else if (msg_type msg =? MSG_ROUTE_REQUEST)%Z then handleRouteRequest msg s
  else if (msg_type msg =? MSG_ROUTE_REPLY)%Z then (handleRouteReply now msg s, [])
  else (s, []).

Definition processMessage (now : Z) (msg : MeshMessage) (s : Mesh)
    : Mesh * list Effect :=
  if memcmp6 (msg_srcMac msg) (myMac s) then (s, [])
  else dispatch now msg (update_peer_info now msg s).

(** ** Origination *)

Definition sendData (dest : Mac) (data : list Z) (len : Z) (s : Mesh)
    : Mesh * list Effect :=
  let len1 := if (200 <? len)%Z then 200%Z else len in
  let nextHop := match findRoute dest s with
                 | Some i =>
                     match routingTable s !! i with
                     | Some r => route_nextHop r
                     | None => dest
                     end
                 | None => dest
                 end in
  let '(q, s1) := next_seq s in
  let msg := mkMsg MSG_DATA (memcpy6 (myMac s)) (memcpy6 dest) 0 q len1
                   (take (Z.to_nat len1) data) in
  (s1, [sendUnicast nextHop msg]).

(** ** The receive callback *)

(** [sizeof(MeshMessage)]: 18 header bytes and 200 payload bytes. *)
Definition MSG_SIZE : nat := 218.
Definition HEADER_SIZE : nat := 18.

(** The struct read back from its 218 bytes of memory (little-endian
    16-bit fields, no padding). *)
Definition msg_of_bytes (mem : list Z) : MeshMessage :=
  mkMsg (nth 0 mem 0%Z)
        (take 6 (drop 1 mem))
        (take 6 (drop 7 mem))
        (nth 13 mem 0%Z)
        (nth 14 mem 0 + 256 * nth 15 mem 0)%Z
        (nth 16 mem 0 + 256 * nth 17 mem 0)%Z
        (drop 18 mem).

(** [memcpy(&msg, data, len)] over the local [msg], whose previous
    contents [uninit] stay behind the copied bytes. *)
Definition memcpy_into (uninit buf : list Z) : list Z :=
  buf ++ drop (length buf) uninit.

Inductive RecvOutcome :=
| Dropped
| Overrun
| Processed (s : Mesh) (out : list Effect).

(** [onDataRecv(mac, data, len)] with [len = length buf].  A buffer
    longer than the struct makes the [memcpy] write past [msg]; the
    code has no defined result there, which is [Overrun]. *)
Definition onDataRecv (now : Z) (uninit buf : list Z) (s : Mesh) : RecvOutcome :=
  if length buf <? HEADER_SIZE then Dropped
  else if MSG_SIZE <? length buf then Overrun
  else
    let '(s1, out) := processMessage now (msg_of_bytes (memcpy_into uninit buf)) s in
    Processed s1 out.

(** ** Initialisation, main loop and public setters *)

(** [initMesh]: [own] is the address read from the radio, [esp_ok]
    the result of [esp_now_init() == ESP_OK]. *)
Definition initMesh (own : Mac) (esp_ok : bool) (s : Mesh) : Mesh * list Effect :=
  let s1 := set_myMac (memcpy6 own) s in
  if esp_ok then sendDiscovery s1 else (s1, []).

Definition meshLoop (now : Z) (s : Mesh) : Mesh * list Effect :=
  if (HEARTBEAT_INTERVAL <? u32 (now - lastHeartbeat s))%Z
  then
    let '(s1, out) := sendHeartbeat s in
    (removeStalePeers now (set_lastHeartbeat now s1), out)
  else (s, []).

Definition setDataCallback (registered : bool) (s : Mesh) : Mesh :=
  set_onDataReceived registered s.

Definition setGatewayMode (gateway : bool) (s : Mesh) : Mesh :=
  set_isGateway gateway s.

Definition getPeerCount (s : Mesh) : nat := peerCount s.

(** ** Executions *)

(** One call into the engine from the host loop, the application or
    the link driver. *)
Inductive step : Mesh -> list Effect -> Mesh -> Prop :=
| step_init own esp_ok s :
    step s (snd (initMesh own esp_ok s)) (fst (initMesh own esp_ok s))
| step_recv now uninit buf s s1 out :
    onDataRecv now uninit buf s = Processed s1 out -> step s out s1
| step_loop now s :
    step s (snd (meshLoop now s)) (fst (meshLoop now s))
| step_send dest data len s :
    step s (snd (sendData dest data len s)) (fst (sendData dest data len s))
| step_discovery s :
    step s (snd (sendDiscovery s)) (fst (sendDiscovery s))
| step_callback b s : step s [] (setDataCallback b s)
| step_gateway b s : step s [] (setGatewayMode b s).

Inductive reachable : Mesh -> Prop :=
| reach_start : reachable globals
| reach_step s out s1 : reachable s -> step s out s1 -> reachable s1.

(** ** Views of the state used by the statements *)

(** The peer entries in use: the first [peerCount] slots of [peers]. *)
Definition live_peers (s : Mesh) : list MeshPeer := take (peerCount s) (peers s).

(** The entry [findRoute] points to. *)
Definition route_of (dest : list Z) (s : Mesh) : option RouteEntry :=
  match findRoute dest s with
  | Some i => routingTable s !! i
  | None => None
  end.

(** The frame handed to the link driver by an effect, if any. *)
Definition frame_of (e : Effect) : option MeshMessage :=
  match e with
  | Broadcast msg _ => Some msg
  | Unicast _ msg _ => Some msg
  | Deliver _ _ _ => None
  end.

(** Both counters within the capacity. *)
Definition bounded (s : Mesh) : Prop :=
  peerCount s <= MAX_PEERS /\ routeCount s <= MAX_PEERS.

(** The arrays have their declared size and the counters fit. *)
Definition wf (s : Mesh) : Prop :=
  length (peers s) = MAX_PEERS /\ length (routingTable s) = MAX_PEERS /\
  bounded s.

(** Every peer entry in use carries the placeholder signal strength. *)
Definition rssi_fixed (s : Mesh) : Prop :=
  forall p, p ∈ live_peers s -> peer_rssi p = (-50)%Z.

(** Two states with the same tables and counters. *)
Definition same_tables (s s1 : Mesh) : Prop :=
  peers s1 = peers s /\ peerCount s1 = peerCount s /\
  routingTable s1 = routingTable s /\ routeCount s1 = routeCount s.

(** The state after a receive callback. *)
Definition recv_state (o : RecvOutcome) (s : Mesh) : Mesh :=
  match o with
  | Processed s1 _ => s1
  | _ => s
  end.

(** The entry written over an existing one by [updateRoute]. *)
Definition improved (now : Z) (nextHop : list Z) (hopCount : Z) (e : RouteEntry)
    : RouteEntry :=
  mkRoute (route_destination e)
          (if (hopCount <? route_hopCount e)%Z then memcpy6 nextHop
           else route_nextHop e)
          (if (hopCount <? route_hopCount e)%Z then hopCount
           else route_hopCount e)
          now.

(** ** Sample addresses and states for the worked examples *)

Definition addr_own : Mac := [170; 0; 0; 0; 0; 1]%Z.
Definition addr_B : Mac := [187; 0; 0; 0; 0; 2]%Z.
Definition addr_D : Mac := [221; 0; 0; 0; 0; 4]%Z.
Definition addr_X : Mac := [16; 0; 0; 0; 0; 7]%Z.
Definition addr_Y : Mac := [32; 0; 0; 0; 0; 8]%Z.
Definition addr_Z : Mac := [48; 0; 0; 0; 0; 9]%Z.

(** The node after [initMesh] with a working radio. *)
Definition booted : Mesh := fst (initMesh addr_own true globals).

(** The node knowing a one-hop route to D through X, learnt at time 0. *)
Definition knows_D : Mesh := updateRoute 0 addr_D addr_X 1 booted.

(** The 18 header bytes of a frame as they lie in memory. *)
Definition header_bytes (msg : MeshMessage) : list Z :=
  [msg_type msg] ++ memcpy6 (msg_srcMac msg) ++ memcpy6 (msg_dstMac msg) ++
  [msg_hopCount msg;
   (msg_sequenceNum msg) mod 256; (msg_sequenceNum msg) / 256;
   (msg_dataLen msg) mod 256; (msg_dataLen msg) / 256]%Z.

(** A frame from the node itself. *)
Definition self_frame : MeshMessage :=
  mkMsg MSG_DATA addr_own addr_B 0 0 0 [].

(** A DATA frame from B for this node that declares 100 payload bytes;
    on the air it is cut after the header. *)
Definition lying_frame : MeshMessage :=
  mkMsg MSG_DATA addr_B addr_own 0 0 100 [].
Definition lying_buf : list Z := header_bytes lying_frame.

(** Stack contents before the copy in the examples. *)
Definition stale_stack : list Z := replicate MSG_SIZE 7%Z.

(** The booted node with an application callback registered. *)
Definition listening : Mesh := setDataCallback true booted.

(** A two-byte DATA frame from B for D, met on its first hop. *)
Definition transit_frame : MeshMessage :=
  mkMsg MSG_DATA addr_B addr_D 0 0 2 [104; 105]%Z.

(** The same frame met on its fifth hop. *)
Definition late_frame : MeshMessage :=
  mkMsg MSG_DATA addr_B addr_D 4 0 2 [104; 105]%Z.

(** B announces itself as an ordinary node; later as a gateway. *)
Definition hello_B : MeshMessage :=
  mkMsg MSG_DISCOVERY addr_B broadcast_addr 0 0 1 [0]%Z.
Definition hello_B_gateway : MeshMessage :=
  mkMsg MSG_DISCOVERY addr_B broadcast_addr 0 1 1 [1]%Z.
Definition hello_buf : list Z := header_bytes hello_B ++ msg_data hello_B.

(** The heartbeat of an ordinary node B that has one peer. *)
Definition beat_B : MeshMessage :=
  mkMsg MSG_HEARTBEAT addr_B broadcast_addr 0 0 2 [1; 0]%Z.

(** The node after hearing B's first announcement at time 1. *)
Definition met_B : Mesh :=
  recv_state (onDataRecv 1 stale_stack hello_buf booted) booted.

(** Twenty neighbours announce themselves at time 1: both tables full. *)
Definition neighbour (k : nat) : Mac := [Z.of_nat k; 0; 0; 0; 0; 9]%Z.
Definition hello_from (k : nat) : MeshMessage :=
  mkMsg MSG_DISCOVERY (neighbour k) broadcast_addr 3 0 1 [0]%Z.
Definition crowded : Mesh :=
  foldl (fun s k => fst (processMessage 1 (hello_from k) s)) booted (seq 1 20).

(** The booted node in gateway mode. *)
Definition gateway_node : Mesh := setGatewayMode true booted.

(** Three neighbours heard at times 0, 50000 and 100000. *)
Definition three_peers : Mesh :=
  fst (processMessage 100000 (hello_from 3)
    (fst (processMessage 50000 (hello_from 2)
      (fst (processMessage 0 (hello_from 1) booted))))).

(** ** Gateway selection *)

(** The loop of [getNearestGateway] with [n] iterations left: [nearest]
    is the index of the entry pointed to ([None] for nullptr). *)
Fixpoint nearest_from (ps : list MeshPeer) (n i : nat)
    (nearest : option nat) (minHops : Z) : option nat :=
  match n with
  | O => nearest
  | S n' =>
      match ps !! i with
      | Some p =>
          if peer_isGateway p && (peer_hopCount p <? minHops)%Z
          then nearest_from ps n' (S i) (Some i) (peer_hopCount p)
          else nearest_from ps n' (S i) nearest minHops
      | None => nearest
      end
  end.

Definition getNearestGateway (s : Mesh) : option nat :=
  nearest_from (peers s) (peerCount s) 0 None 255.

(** What the loop has established after scanning the slots below [i]. *)
Definition nearest_upto (ps : list MeshPeer) (i : nat)
    (nearest : option nat) (minHops : Z) : Prop :=
  match nearest with
  | None =>
      minHops = 255%Z /\
      forall j p, j < i -> ps !! j = Some p -> peer_isGateway p = true ->
                  (255 <= peer_hopCount p)%Z
  | Some k =>
      k < i /\
      exists pk, ps !! k = Some pk /\ peer_isGateway pk = true /\
                 peer_hopCount pk = minHops /\ (minHops < 255)%Z /\
                 (forall j p, j < i -> ps !! j = Some p ->
                              peer_isGateway p = true ->
                              (minHops <= peer_hopCount p)%Z) /\
                 (forall j p, j < k -> ps !! j = Some p ->
                              peer_isGateway p = true ->
                              (minHops < peer_hopCount p)%Z)
  end.

(** ** Frames on the air *)

(** The memory image of a [MeshMessage]: header, then the payload array. *)
Definition struct_bytes (msg : MeshMessage) : list Z :=
  header_bytes msg ++ msg_data msg.

(** The bytes [esp_now_send] is given: the first [msgLen] bytes of the
    struct. *)
Definition wire_bytes (e : Effect) : list Z :=
  match e with
  | Broadcast msg msgLen => take (Z.to_nat msgLen) (struct_bytes msg)
  | Unicast _ msg msgLen => take (Z.to_nat msgLen) (struct_bytes msg)
  | Deliver _ _ _ => []
  end.

(** [if (len > 200) len = 200;] *)
Definition clip_len (len : Z) : Z := if (200 <? len)%Z then 200%Z else len.

(** ** More sample states *)

(** A DISCOVERY from neighbour [k] that says it is a gateway, received
    with hop count [h]. *)
Definition gateway_hello (k : nat) (h : Z) : MeshMessage :=
  mkMsg MSG_DISCOVERY (neighbour k) broadcast_addr h 0 1 [1]%Z.

(** Gateways 1, 2 and 3 heard at 3, 1 and 1 hops. *)
Definition gateways_seen : Mesh :=
  fst (processMessage 3 (gateway_hello 3 1)
    (fst (processMessage 2 (gateway_hello 2 1)
      (fst (processMessage 1 (gateway_hello 1 3) booted))))).

(** A single gateway, heard with hop count 255. *)
Definition far_gateway : Mesh :=
  fst (processMessage 1 (gateway_hello 1 255) booted).

(** A node whose own address is B. *)
Definition sender_B : Mesh := fst (initMesh addr_B true globals).

(** ** Pairwise different addresses *)

(** No two elements of [l] have keys that [memcmp] finds equal. *)
Fixpoint distinct_by {A : Type} (key : A -> list Z) (l : list A) : Prop :=
  match l with
  | [] => True
  | x :: l' =>
      Forall (fun y => memcmp6 (key x) (key y) = false) l' /\ distinct_by key l'
  end.

Definition peers_unique (s : Mesh) : Prop :=
  distinct_by peer_mac (live_peers s).

Definition routes_unique (s : Mesh) : Prop :=
  distinct_by route_destination (take (routeCount s) (routingTable s)).

(** The three table properties every step keeps. *)
Definition tables_ok (s : Mesh) : Prop :=
  wf s /\ peers_unique s /\ routes_unique s.

(** The node after hearing neighbour 2 as well, at time 2. *)
Definition hello2_buf : list Z :=
  header_bytes (hello_from 2) ++ msg_data (hello_from 2).
Definition met_two : Mesh :=
  recv_state (onDataRecv 2 stale_stack hello2_buf met_B) met_B.

(** No peer entry in use holds the node's own address. *)
Definition no_self_peer (s : Mesh) : Prop :=
  Forall (fun p => memcmp6 (peer_mac p) (myMac s) = false) (live_peers s).


(** * Properties *)

(** An effect list of at most one element: [H : e ∈ out]. *)
Ltac one_effect H :=
  first [ apply elem_of_nil in H; contradiction
        | apply list_elem_of_singleton in H; subst ].

(** ** The search loop *)

Section Find.
Context {A : Type} (test : A -> bool) (table : list A).

Lemma find_from_Some n : forall i k,
  find_from test table n i = Some k ->
  i <= k < i + n /\ exists x, table !! k = Some x /\ test x = true.
Proof.
  induction n as [|n IH]; intros i k H; simpl in H; [discriminate|].
  destruct (table !! i) as [x|] eqn:Hx; [|discriminate].
  destruct (test x) eqn:Ht.
  - inversion H; subst. split; [lia | eauto].
  - apply IH in H as [Hk Hex]. split; [lia | exact Hex].
Qed.

Lemma find_from_first n : forall i k,
  find_from test table n i = Some k ->
  forall j x, i <= j < k -> table !! j = Some x -> test x = false.
Proof.
  induction n as [|n IH]; intros i k H j x Hj Hjx; simpl in H; [discriminate|].
  destruct (table !! i) as [y|] eqn:Hy; [|discriminate].
  destruct (test y) eqn:Ht.
  - inversion H; subst. lia.
  - destruct (decide (j = i)) as [->|Hne].
    + congruence.
    + eapply IH; [exact H | | exact Hjx]. lia.
Qed.

Lemma find_from_None n : forall i,
  i + n <= length table ->
  find_from test table n i = None ->
  forall j x, i <= j < i + n -> table !! j = Some x -> test x = false.
Proof.
  induction n as [|n IH]; intros i Hlen H j x Hj Hjx; [lia|].
  simpl in H.
  destruct (lookup_lt_is_Some_2 table i) as [y Hy]; [lia|].
  rewrite Hy in H. destruct (test y) eqn:Ht; [discriminate|].
  destruct (decide (j = i)) as [->|Hne].
  - congruence.
  - eapply (IH (S i)); [lia | exact H | | exact Hjx]. lia.
Qed.

Lemma find_from_hit n : forall i k x,
  i <= k < i + n -> table !! k = Some x -> test x = true ->
  (forall j, i <= j < k -> is_Some (table !! j)) ->
  is_Some (find_from test table n i).
Proof.
  induction n as [|n IH]; intros i k x Hk Hx Ht Hall; [lia|].
  simpl. destruct (decide (k = i)) as [->|Hne].
  - rewrite Hx, Ht. eauto.
  - destruct (Hall i) as [y Hy]; [lia|]. rewrite Hy.
    destruct (test y); [eauto|].
    apply (IH (S i) k x); auto; [lia|]. intros j Hj. apply Hall. lia.
Qed.
End Find.

(** ** The model on the two-node discovery scenario *)

(** A gateway hears B's first DISCOVERY ([hop_count = 0], payload [0]):
    B becomes peer 0 with hop count 0, a direct route to B is stored,
    and a DISCOVERY with [hop_count = 1] and payload [1] goes back to B. *)
Example two_node_discovery :
  let r := processMessage 9 hello_B gateway_node in
  live_peers (fst r) = [mkPeer addr_B (-50) 9 0 false true] /\
  route_of addr_B (fst r) = Some (mkRoute addr_B addr_B 1 9) /\
  snd r = [Unicast addr_B
             (mkMsg MSG_DISCOVERY addr_own addr_B 1 1 1 [1]%Z) 19].
Proof. vm_compute. repeat split. Qed.

(** ** Integer helpers *)

Lemma u8_small x : (0 <= x < 256)%Z -> u8 x = x.
Proof. intros H. unfold u8. apply Z.mod_small. exact H. Qed.

Lemma u32_small x : (0 <= x < 4294967296)%Z -> u32 x = x.
Proof. intros H. unfold u32. apply Z.mod_small. exact H. Qed.

(** With a monotone clock that has not wrapped, the 32-bit age is the
    plain difference. *)
Lemma age_exact now p :
  (0 <= peer_lastSeen p <= now)%Z -> (now < 4294967296)%Z ->
  age now p = (now - peer_lastSeen p)%Z.
Proof. intros H1 H2. unfold age. apply u32_small. lia. Qed.

(** ** The compaction loop against [filter] *)

Lemma removeStale_loop_spec now n : forall i w ps,
  w <= i -> i + n <= length ps ->
  length (removeStale_loop now n i w ps).1 = length ps /\
  take (removeStale_loop now n i w ps).2 (removeStale_loop now n i w ps).1
    = take w ps ++ filter (fun p => fresh now p = true) (take n (drop i ps)) /\
  drop (i + n) (removeStale_loop now n i w ps).1 = drop (i + n) ps.
Proof.
  induction n as [|n IH]; intros i w ps Hw Hlen; simpl.
  - rewrite app_nil_r. repeat split; auto; lia.
  - destruct (lookup_lt_is_Some_2 ps i) as [p Hp]; [lia|].
    rewrite Hp. rewrite (drop_S _ _ _ Hp). simpl.
    assert (Hins : (if decide (w = i) then ps else <[w:=p]> ps) = <[w:=p]> ps).
    { destruct (decide (w = i)) as [->|]; [|done]. by rewrite list_insert_id. }
    rewrite Hins.
    destruct (fresh now p) eqn:Hf.
    + rewrite filter_cons_True by done.
      destruct (IH (S i) (S w) (<[w:=p]> ps)) as (H1 & H2 & H4);
        [lia | rewrite length_insert; lia |].
      rewrite length_insert in H1.
      repeat split; [done | |].
      * rewrite H2.
        rewrite (take_S_r _ _ p) by (apply list_lookup_insert_eq; lia).
        rewrite take_insert_ge by lia.
        rewrite drop_insert_lt by lia.
        by rewrite <- app_assoc.
      * replace (i + S n) with (S i + n) by lia. rewrite H4.
        apply drop_insert_lt. lia.
    + rewrite filter_cons_False by (rewrite Hf; done).
      destruct (IH (S i) w ps) as (H1 & H2 & H4); [lia | lia |].
      repeat split; [done | done |].
      replace (i + S n) with (S i + n) by lia. done.
Qed.

(** The write index never passes the read index, whatever the array. *)
Lemma removeStale_loop_count now n : forall i w ps,
  (removeStale_loop now n i w ps).2 <= w + n.
Proof.
  induction n as [|n IH]; intros i w ps; simpl; [lia|].
  destruct (ps !! i) as [p|]; simpl; [|lia].
  destruct (fresh now p).
  - etransitivity; [apply IH|]. lia.
  - etransitivity; [apply IH|]. lia.
Qed.

Lemma removeStalePeers_live now s :
  peerCount s <= length (peers s) ->
  live_peers (removeStalePeers now s)
    = filter (fun p => fresh now p = true) (live_peers s).
Proof.
  intros Hlen. unfold removeStalePeers, live_peers.
  destruct (removeStale_loop_spec now (peerCount s) 0 0 (peers s)) as (_ & H & _);
    [lia | lia |].
  destruct (removeStale_loop now (peerCount s) 0 0 (peers s)) as [ps w].
  simpl in *. exact H.
Qed.

Lemma removeStalePeers_length now s :
  peerCount s <= length (peers s) ->
  length (peers (removeStalePeers now s)) = length (peers s).
Proof.
  intros Hlen. unfold removeStalePeers.
  destruct (removeStale_loop_spec now (peerCount s) 0 0 (peers s)) as (H & _);
    [lia | lia |].
  destruct (removeStale_loop now (peerCount s) 0 0 (peers s)) as [ps w].
  simpl in *. exact H.
Qed.

Lemma removeStalePeers_count now s :
  peerCount (removeStalePeers now s) <= peerCount s.
Proof.
  unfold removeStalePeers.
  pose proof (removeStale_loop_count now (peerCount s) 0 0 (peers s)) as H.
  destruct (removeStale_loop now (peerCount s) 0 0 (peers s)) as [ps w].
  simpl in *. lia.
Qed.

Lemma removeStalePeers_other now s :
  myMac (removeStalePeers now s) = myMac s /\
  routingTable (removeStalePeers now s) = routingTable s /\
  routeCount (removeStalePeers now s) = routeCount s /\
  sequenceNumber (removeStalePeers now s) = sequenceNumber s /\
  isGateway (removeStalePeers now s) = isGateway s /\
  lastHeartbeat (removeStalePeers now s) = lastHeartbeat s /\
  onDataReceived (removeStalePeers now s) = onDataReceived s.
Proof.
  unfold removeStalePeers.
  destruct (removeStale_loop now (peerCount s) 0 0 (peers s)) as [ps w].
  repeat split.
Qed.

Lemma fresh_iff now p : fresh now p = true <-> (age now p < PEER_TIMEOUT)%Z.
Proof. unfold fresh. apply Z.ltb_lt. Qed.

(** C6. [removeStalePeers] at time [now] keeps exactly the live entries
    whose 32-bit age [now - lastSeen] is below PEER_TIMEOUT, in their
    original order: every live entry of age at least PEER_TIMEOUT is
    gone, every younger one stays, and all survivors are younger than
    PEER_TIMEOUT. *)
Theorem evict_stale_exact now s :
  peerCount s <= length (peers s) ->
  live_peers (removeStalePeers now s)
    = filter (fun p => (age now p < PEER_TIMEOUT)%Z) (live_peers s) /\
  live_peers (removeStalePeers now s) `sublist_of` live_peers s /\
  (forall p, p ∈ live_peers s -> (PEER_TIMEOUT <= age now p)%Z ->
             p ∉ live_peers (removeStalePeers now s)) /\
  (forall p, p ∈ live_peers s -> (age now p < PEER_TIMEOUT)%Z ->
             p ∈ live_peers (removeStalePeers now s)) /\
  Forall (fun p => (age now p < PEER_TIMEOUT)%Z)
         (live_peers (removeStalePeers now s)) /\
  peerCount (removeStalePeers now s) = length (live_peers (removeStalePeers now s)).
Proof.
  intros Hlen.
  assert (Heq : live_peers (removeStalePeers now s)
                = filter (fun p => (age now p < PEER_TIMEOUT)%Z) (live_peers s)).
  { rewrite removeStalePeers_live by exact Hlen.
    apply list_filter_iff. intros p. apply fresh_iff. }
  split; [exact Heq|].
  split; [rewrite Heq; apply sublist_filter|].
  split; [intros p _ Hold; rewrite Heq, list_elem_of_filter; lia|].
  split; [intros p Hin Hyoung; rewrite Heq, list_elem_of_filter; auto|].
  split.
  - rewrite Heq. apply Forall_forall. intros p Hp.
    apply list_elem_of_filter in Hp. tauto.
  - unfold live_peers. rewrite length_take.
    pose proof (removeStalePeers_count now s).
    pose proof (removeStalePeers_length now s Hlen). lia.
Qed.
Lemma evict_stale_exact_witness :
  map peer_lastSeen (live_peers three_peers) = [0; 50000; 100000]%Z /\
  map peer_lastSeen (live_peers (removeStalePeers 130000 three_peers))
    = [50000; 100000]%Z /\
  Forall (fun p => (age 130000 p < PEER_TIMEOUT)%Z)
         (live_peers (removeStalePeers 130000 three_peers)).
Proof.
  destruct (evict_stale_exact 130000 three_peers) as (Heq & _ & _ & _ & Hall & _).
  - vm_compute. lia.
  - split; [vm_compute; reflexivity|].
    split; [rewrite Heq; vm_compute; reflexivity | exact Hall].
Defined.


Lemma find_from_ext {A} (test : A -> bool) (l1 l2 : list A) n : forall i,
  (forall j, i <= j < i + n -> test <$> (l1 !! j) = test <$> (l2 !! j)) ->
  find_from test l1 n i = find_from test l2 n i.
Proof.
  induction n as [|n IH]; intros i H; simpl; [done|].
  pose proof (H i ltac:(lia)) as Hi.
  rewrite (IH (S i)) by (intros j Hj; apply H; lia).
  destruct (l1 !! i) as [x|], (l2 !! i) as [y|]; simpl in Hi; try discriminate; [|done].
  inversion Hi as [Hxy]. by rewrite Hxy.
Qed.

Lemma find_from_snoc {A} (test : A -> bool) (l : list A) n : forall i,
  find_from test l (S n) i =
    match find_from test l n i with
    | Some k => Some k
    | None =>
        match l !! (i + n) with
        | Some x => if test x then Some (i + n) else None
        | None => None
        end
    end.
Proof.
  induction n as [|n IH]; intros i.
  - simpl. rewrite Nat.add_0_r. destruct (l !! i) as [x|]; [|done].
    by destruct (test x).
  - change (find_from test l (S (S n)) i) with
      (match l !! i with
       | Some x => if test x then Some i else find_from test l (S n) (S i)
       | None => None
       end).
    rewrite (IH (S i)).
    replace (S i + n) with (i + S n) by lia. simpl.
    destruct (l !! i) as [x|] eqn:Hx.
    + by destruct (test x).
    + rewrite (lookup_ge_None_2 l (i + S n)); [done|].
      apply lookup_ge_None in Hx. lia.
Qed.

Lemma memcmp6_refl a : memcmp6 a a = true.
Proof. unfold memcmp6. simpl. by rewrite !Z.eqb_refl. Qed.

Lemma nth_memcpy6 a i : i < 6 -> nth i (memcpy6 a) 0%Z = nth i a 0%Z.
Proof.
  intros H. unfold memcpy6.
  do 6 (destruct i as [|i]; [reflexivity|]). lia.
Qed.

Lemma memcmp6_memcpy6_l a b : memcmp6 (memcpy6 a) b = memcmp6 a b.
Proof. reflexivity. Qed.

Lemma memcmp6_memcpy6_r a b : memcmp6 a (memcpy6 b) = memcmp6 a b.
Proof. reflexivity. Qed.

(** ** The routing table *)

Lemma findRoute_Some d s i :
  findRoute d s = Some i ->
  i < routeCount s /\
  exists e, routingTable s !! i = Some e /\ memcmp6 (route_destination e) d = true.
Proof.
  intros H. apply find_from_Some in H as [Hi Hex]. split; [lia | exact Hex].
Qed.

Lemma route_of_Some d s e :
  route_of d s = Some e ->
  exists i, findRoute d s = Some i /\ routingTable s !! i = Some e.
Proof.
  unfold route_of. destruct (findRoute d s) as [i|]; [eauto | discriminate].
Qed.

Lemma updateRoute_existing now d nh h s i e :
  findRoute d s = Some i -> routingTable s !! i = Some e ->
  updateRoute now d nh h s
    = set_routes (<[i := improved now nh h e]> (routingTable s)) (routeCount s) s.
Proof.
  intros Hf He. unfold updateRoute, improved. rewrite Hf, He.
  by destruct (h <? route_hopCount e)%Z.
Qed.

Lemma updateRoute_new now d nh h s :
  findRoute d s = None -> routeCount s < MAX_PEERS ->
  updateRoute now d nh h s
    = set_routes (<[routeCount s := mkRoute (memcpy6 d) (memcpy6 nh) h now]>
                    (routingTable s))
                 (S (routeCount s)) s.
Proof.
  intros Hf Hlt. unfold updateRoute. rewrite Hf.
  destruct (routeCount s <? MAX_PEERS) eqn:E; [done|].
  apply Nat.ltb_ge in E. lia.
Qed.

Lemma updateRoute_full now d nh h s :
  findRoute d s = None -> MAX_PEERS <= routeCount s ->
  updateRoute now d nh h s = s.
Proof.
  intros Hf Hge. unfold updateRoute. rewrite Hf.
  destruct (routeCount s <? MAX_PEERS) eqn:E; [|done].
  apply Nat.ltb_lt in E. lia.
Qed.

Lemma route_of_updateRoute_existing now d nh h s e :
  route_of d s = Some e ->
  route_of d (updateRoute now d nh h s) = Some (improved now nh h e).
Proof.
  intros Hr. destruct (route_of_Some _ _ _ Hr) as (i & Hf & He).
  rewrite (updateRoute_existing now d nh h s i e Hf He).
  unfold route_of, findRoute. simpl.
  rewrite (find_from_ext _ _ (routingTable s)).
  - fold (findRoute d s). rewrite Hf.
    apply list_lookup_insert_eq. by eapply lookup_lt_Some.
  - intros j _. destruct (decide (j = i)) as [->|Hne].
    + rewrite list_lookup_insert_eq by (by eapply lookup_lt_Some).
      by rewrite He.
    + by rewrite list_lookup_insert_ne.
Qed.

Lemma route_of_updateRoute_new now d nh h s :
  route_of d s = None -> routeCount s < MAX_PEERS ->
  routeCount s < length (routingTable s) ->
  route_of d (updateRoute now d nh h s)
    = Some (mkRoute (memcpy6 d) (memcpy6 nh) h now).
Proof.
  intros Hr Hlt Hlen.
  assert (Hf : findRoute d s = None).
  { unfold route_of in Hr. destruct (findRoute d s) as [i|] eqn:Hf; [|done].
    apply findRoute_Some in Hf as (_ & e & He & _). congruence. }
  rewrite (updateRoute_new now d nh h s Hf Hlt).
  unfold route_of, findRoute, set_routes. cbn [routingTable routeCount].
  rewrite find_from_snoc.
  rewrite (find_from_ext _ _ (routingTable s)).
  - fold (findRoute d s). rewrite Hf. simpl.
    rewrite list_lookup_insert_eq by exact Hlen. simpl.
    rewrite memcmp6_memcpy6_l, memcmp6_refl.
    apply list_lookup_insert_eq. exact Hlen.
  - intros j Hj. rewrite list_lookup_insert_ne by lia. done.
Qed.

(** The spec's route-improvement scenario on the booted node:
    [update(D, X, 3); update(D, Y, 2); update(D, Z, 2)] leaves D via Y, 2. *)
Example route_improvement_scenario :
  route_of addr_D
    (updateRoute 30 addr_D addr_Z 2
       (updateRoute 20 addr_D addr_Y 2
          (updateRoute 10 addr_D addr_X 3 booted)))
  = Some (mkRoute addr_D addr_Y 2 30).
Proof. reflexivity. Qed.

(** C5, as stated, fails: D has an entry (via X, 1 hop); after
    [update(D, Y, 3)] and [update(D, Z, 5)], with 5 >= 3, the stored
    next hop is X and not Y, because the first update did not beat the
    stored hop count either. *)
Lemma route_update_strict_counterexample :
  route_of addr_D knows_D = Some (mkRoute addr_D addr_X 1 0) /\
  (5 >= 3)%Z /\
  route_of addr_D
    (updateRoute 20 addr_D addr_Z 5 (updateRoute 10 addr_D addr_Y 3 knows_D))
  = Some (mkRoute addr_D addr_X 1 20) /\
  addr_X <> addr_Y.
Proof. repeat split; discriminate. Qed.

(** C5 (amended). For a destination with a stored entry [e],
    [updateRoute] overwrites next hop and hop count exactly when the new
    hop count is strictly less than the stored one and sets
    [lastUpdated] to [now] in both cases.  Consequently, when
    [update(d, nh1, h1)] is the update that stores [nh1] (no entry for
    [d] and room in the table, or [h1] strictly below the stored hop
    count), a following [update(d, nh2, h2)] with [h2 >= h1] leaves the
    stored next hop [nh1] with hop count [h1]. *)
Theorem route_update_strict :
  (forall now d nh2 h2 s e,
     route_of d s = Some e ->
     exists e',
       route_of d (updateRoute now d nh2 h2 s) = Some e' /\
       route_destination e' = route_destination e /\
       route_lastUpdated e' = now /\
       ((h2 < route_hopCount e)%Z ->
          route_nextHop e' = memcpy6 nh2 /\ route_hopCount e' = h2) /\
       ((route_hopCount e <= h2)%Z ->
          route_nextHop e' = route_nextHop e /\
          route_hopCount e' = route_hopCount e)) /\
  (forall t1 t2 d nh1 h1 nh2 h2 s,
     (h2 >= h1)%Z ->
     (route_of d s = None /\ routeCount s < MAX_PEERS /\
      routeCount s < length (routingTable s)) \/
     (exists e, route_of d s = Some e /\ (h1 < route_hopCount e)%Z) ->
     exists e',
       route_of d (updateRoute t2 d nh2 h2 (updateRoute t1 d nh1 h1 s)) = Some e' /\
       route_nextHop e' = memcpy6 nh1 /\
       route_hopCount e' = h1 /\
       route_lastUpdated e' = t2).
Proof.
  split.
  - intros now d nh2 h2 s e Hr.
    exists (improved now nh2 h2 e).
    split; [by apply route_of_updateRoute_existing|].
    unfold improved. simpl.
    destruct (h2 <? route_hopCount e)%Z eqn:E.
    + apply Z.ltb_lt in E. repeat split; auto; lia.
    + apply Z.ltb_ge in E. repeat split; auto; lia.
  - intros t1 t2 d nh1 h1 nh2 h2 s Hge [(Hnone & Hroom & Hlen) | (e & He & Hlt)].
    + pose proof (route_of_updateRoute_new t1 d nh1 h1 s Hnone Hroom Hlen) as H1.
      pose proof (route_of_updateRoute_existing t2 d nh2 h2 _ _ H1) as H2.
      eexists. split; [exact H2|].
      unfold improved. simpl.
      destruct (h2 <? h1)%Z eqn:E; [apply Z.ltb_lt in E; lia|]. done.
    + pose proof (route_of_updateRoute_existing t1 d nh1 h1 s e He) as H1.
      pose proof (route_of_updateRoute_existing t2 d nh2 h2 _ _ H1) as H2.
      eexists. split; [exact H2|].
      unfold improved. simpl.
      apply Z.ltb_lt in Hlt. rewrite Hlt.
      destruct (h2 <? h1)%Z eqn:E; [apply Z.ltb_lt in E; lia|]. done.
Qed.

Lemma route_update_strict_witness :
  exists e',
    route_of addr_D
      (updateRoute 20 addr_D addr_Z 2 (updateRoute 10 addr_D addr_Y 2 booted))
    = Some e' /\
    route_nextHop e' = memcpy6 addr_Y /\
    route_hopCount e' = 2%Z /\
    route_lastUpdated e' = 20%Z.
Proof.
  apply (proj2 route_update_strict 10 20 addr_D addr_Y 2 addr_Z 2 booted)%Z.
  - lia.
  - left. vm_compute. repeat split; lia.
Defined.

(** ** The periodic driver *)

(** C7, as stated, fails: with [lastHeartbeat = 0] and [now] equal to
    HEARTBEAT_INTERVAL exactly, [meshLoop] sends nothing and changes
    nothing. *)
Lemma heartbeat_strict_counterexample :
  lastHeartbeat booted = 0%Z /\
  (30000 - lastHeartbeat booted >= HEARTBEAT_INTERVAL)%Z /\
  meshLoop 30000 booted = (booted, []).
Proof. repeat split. discriminate. Qed.

(** C7 (amended). [meshLoop] broadcasts a HEARTBEAT with payload
    [peer_count, gateway_flag], sets [lastHeartbeat] to [now] and evicts
    stale peers if and only if the 32-bit elapsed time
    [now - lastHeartbeat] is strictly greater than HEARTBEAT_INTERVAL;
    when the elapsed time is at most HEARTBEAT_INTERVAL (in particular
    equal to it) nothing is sent and the state is unchanged. *)
Theorem heartbeat_strict now s :
  ((HEARTBEAT_INTERVAL < u32 (now - lastHeartbeat s))%Z ->
     snd (meshLoop now s)
       = [Broadcast
            (mkMsg MSG_HEARTBEAT (memcpy6 (myMac s)) broadcast_addr 0
                   (sequenceNumber s) 2
                   [u8 (Z.of_nat (peerCount s)); gateway_flag (isGateway s)])
            20] /\
     fst (meshLoop now s)
       = removeStalePeers now
           (set_lastHeartbeat now
              (set_sequenceNumber (u16 (sequenceNumber s + 1)) s)) /\
     lastHeartbeat (fst (meshLoop now s)) = now) /\
  ((u32 (now - lastHeartbeat s) <= HEARTBEAT_INTERVAL)%Z ->
     meshLoop now s = (s, [])) /\
  (snd (meshLoop now s) <> [] <->
     (HEARTBEAT_INTERVAL < u32 (now - lastHeartbeat s))%Z).
Proof.
  unfold meshLoop.
  destruct (HEARTBEAT_INTERVAL <? u32 (now - lastHeartbeat s))%Z eqn:E.
  - apply Z.ltb_lt in E. split; [|split].
    + intros _. simpl. repeat split.
      apply removeStalePeers_other.
    + intros H. lia.
    + simpl. split; [intros _; exact E | intros _; discriminate].
  - apply Z.ltb_ge in E. split; [|split].
    + intros H. lia.
    + reflexivity.
    + simpl. split; [intros H; by destruct H | intros H; lia].
Qed.

Lemma heartbeat_strict_witness :
  snd (meshLoop 30001 booted)
    = [Broadcast
         (mkMsg MSG_HEARTBEAT addr_own broadcast_addr 0 1 2 [0; 0]%Z) 20] /\
  lastHeartbeat (fst (meshLoop 30001 booted)) = 30001%Z /\
  meshLoop 30000 booted = (booted, []).
Proof.
  destruct (heartbeat_strict 30001 booted) as (Hsend & _ & _).
  destruct (heartbeat_strict 30000 booted) as (_ & Hquiet & _).
  destruct Hsend as (H1 & _ & H3); [vm_compute; reflexivity|].
  split; [exact H1|]. split; [exact H3|].
  apply Hquiet. vm_compute. discriminate.
Defined.

(** ** The receive path *)

(** C8. A frame whose source is the node's own address changes no
    field of the state and produces no effect, both at
    [processMessage] and through the receive callback. *)
Theorem self_frame_ignored now msg s :
  memcmp6 (msg_srcMac msg) (myMac s) = true ->
  processMessage now msg s = (s, []) /\
  (forall uninit buf,
     msg_of_bytes (memcpy_into uninit buf) = msg ->
     length buf <= MSG_SIZE ->
     onDataRecv now uninit buf s = Dropped \/
     onDataRecv now uninit buf s = Processed s []).
Proof.
  intros Hself. unfold processMessage.
  split; [by rewrite Hself|].
  intros uninit buf Hmsg Hlen. unfold onDataRecv, processMessage.
  destruct (length buf <? HEADER_SIZE); [by left|].
  destruct (MSG_SIZE <? length buf) eqn:E; [apply Nat.ltb_lt in E; lia|].
  rewrite Hmsg, Hself. by right.
Qed.

Lemma self_frame_ignored_witness :
  processMessage 5 self_frame booted = (booted, []) /\
  (onDataRecv 5 stale_stack (header_bytes self_frame) booted = Dropped \/
   onDataRecv 5 stale_stack (header_bytes self_frame) booted = Processed booted []).
Proof.
  destruct (self_frame_ignored 5
              (msg_of_bytes (memcpy_into stale_stack (header_bytes self_frame)))
              booted) as [H1 H2].
  - vm_compute. reflexivity.
  - split.
    + apply (self_frame_ignored 5 self_frame booted). vm_compute. reflexivity.
    + apply H2; [reflexivity | vm_compute; lia].
Defined.

(** C4, as stated, fails: an 18-byte buffer whose header declares
    [data_len = 100], with nothing behind the header, is not dropped.
    The sender becomes a peer and 100 bytes of the receiver's own stale
    memory are delivered to the application. *)
Lemma recv_length_check_counterexample :
  length lying_buf = 18 /\
  msg_dataLen (msg_of_bytes (memcpy_into stale_stack lying_buf)) = 100%Z /\
  (100 > Z.of_nat (length lying_buf - HEADER_SIZE))%Z /\
  exists s1,
    onDataRecv 5 stale_stack lying_buf listening
      = Processed s1 [Deliver addr_B (replicate 200 7%Z) 100] /\
    peerCount s1 = 1 /\ peerCount listening = 0.
Proof.
  split; [reflexivity|]. split; [reflexivity|]. split; [reflexivity|].
  eexists. split; [vm_compute; reflexivity|]. split; reflexivity.
Qed.

(** C4 (amended). The receive callback drops every buffer shorter than
    the 18-byte header without processing it.  It has no check of the
    declared [data_len]: every buffer of 18 to 218 bytes is decoded and
    handed to [processMessage], its payload array filled up with what
    the local struct held before. *)
Theorem recv_length_check now uninit buf s :
  (length buf < 18 -> onDataRecv now uninit buf s = Dropped) /\
  (18 <= length buf <= 218 ->
     onDataRecv now uninit buf s
       = Processed
           (fst (processMessage now (msg_of_bytes (memcpy_into uninit buf)) s))
           (snd (processMessage now (msg_of_bytes (memcpy_into uninit buf)) s))) /\
  (onDataRecv now uninit buf s = Dropped -> length buf < 18).
Proof.
  unfold onDataRecv, HEADER_SIZE, MSG_SIZE.
  destruct (length buf <? 18) eqn:E1.
  - apply Nat.ltb_lt in E1. repeat split; auto; lia.
  - apply Nat.ltb_ge in E1.
    destruct (218 <? length buf) eqn:E2.
    + apply Nat.ltb_lt in E2. repeat split; try lia; discriminate.
    + split; [lia|]. split.
      * intros _.
        by destruct (processMessage now (msg_of_bytes (memcpy_into uninit buf)) s).
      * destruct (processMessage now (msg_of_bytes (memcpy_into uninit buf)) s).
        discriminate.
Qed.

Lemma recv_length_check_witness :
  onDataRecv 5 stale_stack (take 17 lying_buf) booted = Dropped /\
  onDataRecv 5 stale_stack lying_buf booted
    = Processed
        (fst (processMessage 5 (msg_of_bytes (memcpy_into stale_stack lying_buf)) booted))
        (snd (processMessage 5 (msg_of_bytes (memcpy_into stale_stack lying_buf)) booted)).
Proof.
  split.
  - apply (recv_length_check 5 stale_stack (take 17 lying_buf) booted).
    vm_compute. lia.
  - apply (recv_length_check 5 stale_stack lying_buf booted).
    vm_compute. lia.
Defined.

(** ** Choice of the link-layer address *)

Lemma route_of_cases d s :
  (exists i r, findRoute d s = Some i /\ routingTable s !! i = Some r /\
               route_of d s = Some r) \/
  (findRoute d s = None /\ route_of d s = None).
Proof.
  unfold route_of. destruct (findRoute d s) as [i|] eqn:Hf.
  - left. destruct (findRoute_Some d s i Hf) as (_ & e & He & _).
    exists i, e. by rewrite He.
  - by right.
Qed.

(** C2, as stated, fails: without a route to D, [sendData] unicasts the
    frame to D itself, while forwarding a frame for D broadcasts it. *)
Lemma send_data_address_counterexample :
  route_of addr_D booted = None /\
  snd (sendData addr_D [104; 105]%Z 2 booted)
    = [Unicast addr_D (mkMsg MSG_DATA addr_own addr_D 0 1 2 [104; 105]%Z) 20] /\
  snd (handleData transit_frame booted)
    = [Broadcast (mkMsg MSG_DATA addr_B addr_D 1 0 2 [104; 105]%Z) 20].
Proof. repeat split. Qed.

(** C2 (amended). [sendData] always unicasts: to the [nextHop] of the
    routing entry for the destination when there is one, and otherwise
    to the destination address itself.  Forwarding a DATA frame agrees
    with it only on the first case: with an entry it unicasts to that
    [nextHop], without one it broadcasts. *)
Theorem send_data_address :
  (forall dest data len s,
     snd (sendData dest data len s)
       = [Unicast
            (match route_of dest s with
             | Some r => route_nextHop r
             | None => dest
             end)
            (mkMsg MSG_DATA (memcpy6 (myMac s)) (memcpy6 dest) 0
                   (sequenceNumber s)
                   (if (200 <? len)%Z then 200%Z else len)
                   (take (Z.to_nat (if (200 <? len)%Z then 200%Z else len)) data))
            (u16 (18 + (if (200 <? len)%Z then 200%Z else len)))]) /\
  (forall msg s,
     memcmp6 (msg_dstMac msg) (myMac s) = false ->
     (msg_hopCount msg < 5)%Z ->
     snd (handleData msg s)
       = [match route_of (msg_dstMac msg) s with
          | Some r => Unicast (route_nextHop r) (bump_hop msg)
                              (u16 (18 + msg_dataLen msg))
          | None => Broadcast (bump_hop msg) (u16 (18 + msg_dataLen msg))
          end]).
Proof.
  split.
  - intros dest data len s. unfold sendData.
    destruct (route_of_cases dest s) as [(i & r & Hf & Hi & Hr) | (Hf & Hr)].
    + by rewrite Hf, Hi, Hr.
    + by rewrite Hf, Hr.
  - intros msg s Hdst Hhop. unfold handleData. rewrite Hdst.
    apply Z.ltb_lt in Hhop. rewrite Hhop. simpl.
    destruct (route_of_cases (msg_dstMac msg) s) as [(i & r & Hf & Hi & Hr) | (Hf & Hr)].
    + by rewrite Hf, Hi, Hr.
    + by rewrite Hf, Hr.
Qed.

Lemma send_data_address_witness :
  snd (handleData transit_frame knows_D)
    = [Unicast addr_X (bump_hop transit_frame) 20] /\
  snd (sendData addr_D [104; 105]%Z 2 knows_D)
    = [Unicast addr_X (mkMsg MSG_DATA addr_own addr_D 0 1 2 [104; 105]%Z) 20].
Proof.
  split.
  - apply (proj2 send_data_address transit_frame knows_D).
    + vm_compute. reflexivity.
    + vm_compute. reflexivity.
  - apply (proj1 send_data_address addr_D [104; 105]%Z 2%Z knows_D).
Defined.

(** ** Hop limit of emitted frames *)

Lemma handleDiscovery_out now msg s e m :
  (0 <= msg_hopCount msg)%Z ->
  e ∈ snd (handleDiscovery now msg s) -> frame_of e = Some m ->
  msg_type m = MSG_DISCOVERY /\ (msg_hopCount m <= 3)%Z.
Proof.
  intros H0 He Hm. unfold handleDiscovery in He.
  destruct (msg_hopCount msg <? 3)%Z eqn:E; simpl in He; one_effect He.
  apply Z.ltb_lt in E. simpl in Hm. inversion Hm; subst; simpl.
  rewrite u8_small by lia. split; [reflexivity | lia].
Qed.

Lemma handleData_out msg s e m :
  e ∈ snd (handleData msg s) -> frame_of e = Some m ->
  m = bump_hop msg /\ (msg_hopCount msg < 5)%Z.
Proof.
  intros He Hm. unfold handleData in He.
  destruct (memcmp6 (msg_dstMac msg) (myMac s)).
  { simpl in He. destruct (onDataReceived s); one_effect He. discriminate. }
  destruct (msg_hopCount msg <? 5)%Z eqn:E; [|one_effect He].
  apply Z.ltb_lt in E.
  destruct (findRoute (msg_dstMac (bump_hop msg)) s) as [i|].
  - destruct (routingTable s !! i); simpl in He; one_effect He.
    inversion Hm. by subst.
  - simpl in He. one_effect He. inversion Hm. by subst.
Qed.

Lemma handleRouteRequest_out msg s e m :
  e ∈ snd (handleRouteRequest msg s) -> frame_of e = Some m ->
  (msg_type m = MSG_ROUTE_REPLY /\ msg_hopCount m = 0%Z) \/
  (m = bump_hop msg /\ (msg_hopCount msg < 5)%Z).
Proof.
  intros He Hm. unfold handleRouteRequest in He.
  destruct (_ || _).
  - simpl in He. one_effect He. inversion Hm; subst. by left.
  - destruct (msg_hopCount msg <? 5)%Z eqn:E; simpl in He; one_effect He.
    apply Z.ltb_lt in E. inversion Hm; subst. by right.
Qed.

Lemma bump_hop_value msg :
  (0 <= msg_hopCount msg < 5)%Z ->
  msg_hopCount (bump_hop msg) = (msg_hopCount msg + 1)%Z.
Proof. intros H. simpl. apply u8_small. lia. Qed.

(** C1, as stated, fails: a DATA frame for another node received with
    [hop_count = 4] is forwarded with [hop_count = 5], which is
    MAX_HOP_COUNT. *)
Lemma hop_bound_counterexample :
  msg_hopCount late_frame = 4%Z /\
  snd (processMessage 5 late_frame booted)
    = [Broadcast (mkMsg MSG_DATA addr_B addr_D 5 0 2 [104; 105]%Z) 20] /\
  (5 >= MAX_HOP_COUNT)%Z.
Proof. repeat split. discriminate. Qed.

(** C1 (amended). No received frame makes the node hand the link driver
    a frame whose [hop_count] is greater than MAX_HOP_COUNT (5).  A DATA
    or ROUTE_REQUEST frame is forwarded only when it was received with
    [hop_count < 5], and the forwarded copy carries [hop_count + 1], so
    at most 5. *)
Theorem hop_bound now msg s :
  (0 <= msg_hopCount msg)%Z ->
  (forall e m,
     e ∈ snd (processMessage now msg s) -> frame_of e = Some m ->
     (msg_hopCount m <= MAX_HOP_COUNT)%Z) /\
  (msg_type msg = MSG_DATA \/ msg_type msg = MSG_ROUTE_REQUEST ->
   forall e m,
     e ∈ snd (processMessage now msg s) -> frame_of e = Some m ->
     msg_type m = msg_type msg ->
     m = bump_hop msg /\ (msg_hopCount msg < 5)%Z /\
     msg_hopCount m = (msg_hopCount msg + 1)%Z).
Proof.
  intros H0.
  assert (Hall : forall e m,
    e ∈ snd (processMessage now msg s) -> frame_of e = Some m ->
    (msg_type m = MSG_DISCOVERY /\ msg_type msg = MSG_DISCOVERY /\
       (msg_hopCount m <= 3)%Z) \/
    (msg_type m = MSG_ROUTE_REPLY /\ msg_type msg = MSG_ROUTE_REQUEST /\
       msg_hopCount m = 0%Z) \/
    (m = bump_hop msg /\ (msg_hopCount msg < 5)%Z)).
  { intros e m He Hm. unfold processMessage in He.
    destruct (memcmp6 (msg_srcMac msg) (myMac s)); [one_effect He|].
    unfold dispatch in He.
    destruct (msg_type msg =? MSG_DISCOVERY)%Z eqn:T1.
    { apply Z.eqb_eq in T1. left.
      destruct (handleDiscovery_out _ _ _ _ _ H0 He Hm). auto. }
    destruct (msg_type msg =? MSG_HEARTBEAT)%Z; [one_effect He|].
    destruct (msg_type msg =? MSG_DATA)%Z.
    { right. right. eapply handleData_out; eauto. }
    destruct (msg_type msg =? MSG_ROUTE_REQUEST)%Z eqn:T4.
    { apply Z.eqb_eq in T4. right.
      destruct (handleRouteRequest_out _ _ _ _ He Hm) as [[? ?]|?]; auto. }
    destruct (msg_type msg =? MSG_ROUTE_REPLY)%Z; one_effect He. }
  split.
  - intros e m He Hm. unfold MAX_HOP_COUNT.
    destruct (Hall e m He Hm) as [(_ & _ & H)|[(_ & _ & H)|(-> & H)]]; [lia | lia |].
    rewrite bump_hop_value by lia. lia.
  - intros Hty e m He Hm Hsame.
    destruct (Hall e m He Hm) as [(H1 & H2 & _)|[(H1 & H2 & _)|(-> & H)]].
    + rewrite H2 in Hty. destruct Hty; discriminate.
    + rewrite H1, H2 in Hsame. discriminate.
    + split; [reflexivity|]. split; [exact H|]. apply bump_hop_value. lia.
Qed.

Lemma hop_bound_witness :
  (forall e m,
     e ∈ snd (processMessage 5 late_frame booted) -> frame_of e = Some m ->
     (msg_hopCount m <= MAX_HOP_COUNT)%Z) /\
  (forall e m,
     e ∈ snd (processMessage 5 transit_frame booted) -> frame_of e = Some m ->
     msg_type m = msg_type transit_frame ->
     m = bump_hop transit_frame /\ (msg_hopCount transit_frame < 5)%Z /\
     msg_hopCount m = (msg_hopCount transit_frame + 1)%Z).
Proof.
  split.
  - apply (hop_bound 5 late_frame booted). vm_compute. discriminate.
  - apply (hop_bound 5 transit_frame booted).
    + vm_compute. discriminate.
    + left. reflexivity.
Defined.

(** ** Table invariants *)

Lemma same_tables_refl s : same_tables s s.
Proof. by repeat split. Qed.

Lemma same_tables_wf s s1 : same_tables s s1 -> wf s -> wf s1.
Proof.
  intros (H1 & H2 & H3 & H4). unfold wf, bounded.
  by rewrite H1, H2, H3, H4.
Qed.

Lemma same_tables_rssi s s1 : same_tables s s1 -> rssi_fixed s -> rssi_fixed s1.
Proof.
  intros (H1 & H2 & _). unfold rssi_fixed, live_peers. by rewrite H1, H2.
Qed.

Lemma sendDiscovery_tables s : same_tables s (fst (sendDiscovery s)).
Proof. by repeat split. Qed.

Lemma sendHeartbeat_tables s : same_tables s (fst (sendHeartbeat s)).
Proof. by repeat split. Qed.

Lemma sendData_tables dest data len s :
  same_tables s (fst (sendData dest data len s)).
Proof. by repeat split. Qed.

Lemma initMesh_tables own ok s : same_tables s (fst (initMesh own ok s)).
Proof. unfold initMesh. destruct ok; by repeat split. Qed.

Lemma removeStalePeers_wf now s : wf s -> wf (removeStalePeers now s).
Proof.
  intros (Hp & Hr & Hpc & Hrc).
  pose proof (removeStalePeers_other now s) as (_ & H1 & H2 & _).
  pose proof (removeStalePeers_count now s).
  pose proof (removeStalePeers_length now s ltac:(lia)).
  unfold wf, bounded. rewrite H1, H2. repeat split; lia.
Qed.

Lemma removeStalePeers_bounded now s : bounded s -> bounded (removeStalePeers now s).
Proof.
  intros (Hpc & Hrc).
  pose proof (removeStalePeers_other now s) as (_ & _ & H2 & _).
  pose proof (removeStalePeers_count now s).
  unfold bounded. rewrite H2. lia.
Qed.

Lemma removeStalePeers_rssi now s :
  wf s -> rssi_fixed s -> rssi_fixed (removeStalePeers now s).
Proof.
  intros (Hp & _ & Hpc & _) Hfix p Hin.
  rewrite removeStalePeers_live in Hin by lia.
  apply list_elem_of_filter in Hin as [_ Hin]. by apply Hfix.
Qed.

(** With every live entry fresh, the compaction writes nothing. *)
Lemma removeStale_loop_all_fresh now n : forall i ps,
  i + n <= length ps ->
  (forall p, p ∈ take n (drop i ps) -> fresh now p = true) ->
  removeStale_loop now n i i ps = (ps, i + n).
Proof.
  induction n as [|n IH]; intros i ps Hlen Hall; simpl.
  - by rewrite Nat.add_0_r.
  - destruct (lookup_lt_is_Some_2 ps i) as [p Hp]; [lia|].
    rewrite Hp. rewrite (drop_S _ _ _ Hp) in Hall. simpl in Hall.
    rewrite (Hall p) by apply list_elem_of_here.
    destruct (decide (i = i)); [|done].
    rewrite IH; [f_equal; lia | lia |].
    intros q Hq. apply Hall. by apply list_elem_of_further.
Qed.

Lemma removeStalePeers_all_fresh now s :
  peerCount s <= length (peers s) ->
  (forall p, p ∈ live_peers s -> fresh now p = true) ->
  removeStalePeers now s = s.
Proof.
  intros Hlen Hall. unfold removeStalePeers.
  rewrite removeStale_loop_all_fresh; [by destruct s | lia | exact Hall].
Qed.

(** The three ways [addPeer] can end. *)
Lemma addPeer_cases now mac rssi h g s :
  (peerCount s < MAX_PEERS /\
   addPeer now mac rssi h g s
     = (Some (peerCount s),
        set_peers (<[peerCount s := mkPeer (memcpy6 mac) rssi now h g true]> (peers s))
                  (S (peerCount s)) s)) \/
  (MAX_PEERS <= peerCount s /\
   peerCount (removeStalePeers now s) < MAX_PEERS /\
   addPeer now mac rssi h g s
     = (Some (peerCount (removeStalePeers now s)),
        set_peers (<[peerCount (removeStalePeers now s)
                     := mkPeer (memcpy6 mac) rssi now h g true]>
                     (peers (removeStalePeers now s)))
                  (S (peerCount (removeStalePeers now s)))
                  (removeStalePeers now s))) \/
  (MAX_PEERS <= peerCount s /\
   MAX_PEERS <= peerCount (removeStalePeers now s) /\
   addPeer now mac rssi h g s = (None, removeStalePeers now s)).
Proof.
  unfold addPeer.
  destruct (MAX_PEERS <=? peerCount s) eqn:E1.
  - apply Nat.leb_le in E1. right.
    destruct (MAX_PEERS <=? peerCount (removeStalePeers now s)) eqn:E2.
    + apply Nat.leb_le in E2. right. by repeat split.
    + apply Nat.leb_gt in E2. left. by repeat split.
  - apply Nat.leb_gt in E1. left. by split.
Qed.

Lemma insert_next_wf ps rs n p s :
  length ps = MAX_PEERS -> n < MAX_PEERS ->
  length rs = MAX_PEERS -> routeCount s <= MAX_PEERS ->
  routingTable s = rs ->
  wf (set_peers (<[n := p]> ps) (S n) s).
Proof.
  intros Hps Hn Hrs Hrc Heq. unfold wf, bounded. simpl.
  rewrite length_insert, Heq. repeat split; lia.
Qed.

Lemma insert_next_live (ps : list MeshPeer) n p :
  n < length ps -> take (S n) (<[n := p]> ps) = take n ps ++ [p].
Proof.
  intros Hn. rewrite (take_S_r _ _ p) by (by apply list_lookup_insert_eq).
  by rewrite take_insert_ge.
Qed.

Lemma addPeer_wf now mac rssi h g s :
  wf s -> wf (snd (addPeer now mac rssi h g s)).
Proof.
  intros Hwf. pose proof (removeStalePeers_wf now s Hwf) as Hwf1.
  destruct (addPeer_cases now mac rssi h g s)
    as [(Hlt & ->) | [(Hge & Hlt & ->) | (Hge & Hge1 & ->)]]; simpl.
  - destruct Hwf as (Hp & Hr & _ & Hrc). by eapply insert_next_wf.
  - destruct Hwf1 as (Hp & Hr & _ & Hrc). by eapply insert_next_wf.
  - exact Hwf1.
Qed.

Lemma addPeer_bounded now mac rssi h g s :
  bounded s -> bounded (snd (addPeer now mac rssi h g s)).
Proof.
  intros Hb. pose proof (removeStalePeers_bounded now s Hb) as Hb1.
  destruct (addPeer_cases now mac rssi h g s)
    as [(Hlt & ->) | [(Hge & Hlt & ->) | (Hge & Hge1 & ->)]]; simpl.
  - destruct Hb as [_ Hrc]. unfold bounded. simpl. lia.
  - destruct Hb1 as [_ Hrc]. unfold bounded. simpl. lia.
  - exact Hb1.
Qed.

Lemma addPeer_rssi now mac h g s :
  wf s -> rssi_fixed s -> rssi_fixed (snd (addPeer now mac (-50) h g s)).
Proof.
  intros Hwf Hfix.
  pose proof (removeStalePeers_wf now s Hwf) as Hwf1.
  pose proof (removeStalePeers_rssi now s Hwf Hfix) as Hfix1.
  destruct (addPeer_cases now mac (-50) h g s)
    as [(Hlt & ->) | [(Hge & Hlt & ->) | (Hge & Hge1 & ->)]]; simpl.
  - intros p Hin. unfold live_peers in Hin. simpl in Hin.
    destruct Hwf as (Hp & _).
    rewrite insert_next_live in Hin by lia.
    apply elem_of_app in Hin as [Hin | Hin]; [by apply Hfix|].
    apply list_elem_of_singleton in Hin. by subst.
  - intros p Hin. unfold live_peers in Hin. simpl in Hin.
    destruct Hwf1 as (Hp & _).
    rewrite insert_next_live in Hin by lia.
    apply elem_of_app in Hin as [Hin | Hin]; [by apply Hfix1|].
    apply list_elem_of_singleton in Hin. by subst.
  - exact Hfix1.
Qed.

Lemma updateRoute_peers now d nh h s :
  peers (updateRoute now d nh h s) = peers s /\
  peerCount (updateRoute now d nh h s) = peerCount s.
Proof.
  unfold updateRoute.
  destruct (findRoute d s) as [i|].
  - by destruct (routingTable s !! i).
  - by destruct (routeCount s <? MAX_PEERS).
Qed.

Lemma updateRoute_routes now d nh h s :
  length (routingTable (updateRoute now d nh h s)) = length (routingTable s) /\
  (routeCount s <= MAX_PEERS -> routeCount (updateRoute now d nh h s) <= MAX_PEERS).
Proof.
  unfold updateRoute.
  destruct (findRoute d s) as [i|].
  - destruct (routingTable s !! i); simpl; [|done].
    by rewrite length_insert.
  - destruct (routeCount s <? MAX_PEERS) eqn:E; simpl; [|done].
    apply Nat.ltb_lt in E. rewrite length_insert. split; [done | lia].
Qed.

Lemma updateRoute_wf now d nh h s : wf s -> wf (updateRoute now d nh h s).
Proof.
  intros (Hp & Hr & Hpc & Hrc).
  destruct (updateRoute_peers now d nh h s) as [H1 H2].
  destruct (updateRoute_routes now d nh h s) as [H3 H4].
  unfold wf, bounded. rewrite H1, H2, H3. repeat split; auto.
Qed.

Lemma updateRoute_bounded now d nh h s :
  bounded s -> bounded (updateRoute now d nh h s).
Proof.
  intros (Hpc & Hrc).
  destruct (updateRoute_peers now d nh h s) as [_ H2].
  destruct (updateRoute_routes now d nh h s) as [_ H4].
  unfold bounded. rewrite H2. auto.
Qed.

(** The handlers leave the peer table alone. *)
Lemma dispatch_peers now msg s :
  peers (fst (dispatch now msg s)) = peers s /\
  peerCount (fst (dispatch now msg s)) = peerCount s.
Proof.
  unfold dispatch.
  destruct (msg_type msg =? MSG_DISCOVERY)%Z.
  { unfold handleDiscovery.
    destruct (msg_hopCount msg <? 3)%Z; simpl;
      match goal with
      | |- context [updateRoute ?t ?d ?nh ?h ?x] =>
          destruct (updateRoute_peers t d nh h x) as [-> ->]
      end; done. }
  destruct (msg_type msg =? MSG_HEARTBEAT)%Z; [done|].
  destruct (msg_type msg =? MSG_DATA)%Z.
  { unfold handleData.
    destruct (memcmp6 _ _); [done|].
    destruct (_ <? _)%Z; [|done].
    destruct (findRoute _ s) as [i|]; [|done].
    by destruct (routingTable s !! i). }
  destruct (msg_type msg =? MSG_ROUTE_REQUEST)%Z.
  { unfold handleRouteRequest.
    destruct (_ || _); [done|]. by destruct (_ <? _)%Z. }
  destruct (msg_type msg =? MSG_ROUTE_REPLY)%Z; [|done].
  apply updateRoute_peers.
Qed.

Lemma dispatch_wf now msg s : wf s -> wf (fst (dispatch now msg s)).
Proof.
  intros Hwf. unfold dispatch.
  destruct (msg_type msg =? MSG_DISCOVERY)%Z.
  { unfold handleDiscovery.
    destruct (msg_hopCount msg <? 3)%Z; simpl; apply updateRoute_wf; [|done].
    eapply same_tables_wf; [|exact Hwf]. by repeat split. }
  destruct (msg_type msg =? MSG_HEARTBEAT)%Z; [done|].
  destruct (msg_type msg =? MSG_DATA)%Z.
  { unfold handleData.
    destruct (memcmp6 _ _); [done|].
    destruct (_ <? _)%Z; [|done].
    destruct (findRoute _ s) as [i|]; [|done].
    by destruct (routingTable s !! i). }
  destruct (msg_type msg =? MSG_ROUTE_REQUEST)%Z.
  { unfold handleRouteRequest.
    destruct (_ || _); [|by destruct (_ <? _)%Z].
    simpl. eapply same_tables_wf; [|exact Hwf]. by repeat split. }
  destruct (msg_type msg =? MSG_ROUTE_REPLY)%Z; [|done].
  by apply updateRoute_wf.
Qed.

Lemma dispatch_bounded now msg s : bounded s -> bounded (fst (dispatch now msg s)).
Proof.
  intros Hb. unfold dispatch.
  destruct (msg_type msg =? MSG_DISCOVERY)%Z.
  { unfold handleDiscovery.
    destruct (msg_hopCount msg <? 3)%Z; simpl; by apply updateRoute_bounded. }
  destruct (msg_type msg =? MSG_HEARTBEAT)%Z; [done|].
  destruct (msg_type msg =? MSG_DATA)%Z.
  { unfold handleData.
    destruct (memcmp6 _ _); [done|].
    destruct (_ <? _)%Z; [|done].
    destruct (findRoute _ s) as [i|]; [|done].
    by destruct (routingTable s !! i). }
  destruct (msg_type msg =? MSG_ROUTE_REQUEST)%Z.
  { unfold handleRouteRequest.
    destruct (_ || _); [done | by destruct (_ <? _)%Z]. }
  destruct (msg_type msg =? MSG_ROUTE_REPLY)%Z; [|done].
  by apply updateRoute_bounded.
Qed.

Lemma findPeer_Some mac s i :
  findPeer mac s = Some i ->
  i < peerCount s /\
  exists p, peers s !! i = Some p /\ memcmp6 (peer_mac p) mac = true.
Proof.
  intros H. apply find_from_Some in H as [Hi Hex]. split; [lia | exact Hex].
Qed.

(** The peer update for a known source: one slot rewritten. *)
Lemma update_peer_info_known now msg s i p :
  findPeer (msg_srcMac msg) s = Some i -> peers s !! i = Some p ->
  update_peer_info now msg s
    = set_peers (<[i := refresh_peer now (msg_hopCount msg) p]> (peers s))
                (peerCount s) s.
Proof. intros Hf Hp. unfold update_peer_info. by rewrite Hf, Hp. Qed.

Lemma update_peer_info_wf now msg s : wf s -> wf (update_peer_info now msg s).
Proof.
  intros Hwf. unfold update_peer_info.
  destruct (findPeer (msg_srcMac msg) s) as [i|]; [|by apply addPeer_wf].
  destruct (peers s !! i); [|done].
  destruct Hwf as (Hp & Hr & Hpc & Hrc). unfold wf, bounded. simpl.
  by rewrite length_insert.
Qed.

Lemma update_peer_info_bounded now msg s :
  bounded s -> bounded (update_peer_info now msg s).
Proof.
  intros Hb. unfold update_peer_info.
  destruct (findPeer (msg_srcMac msg) s) as [i|]; [|by apply addPeer_bounded].
  by destruct (peers s !! i).
Qed.

Lemma update_peer_info_rssi now msg s :
  wf s -> rssi_fixed s -> rssi_fixed (update_peer_info now msg s).
Proof.
  intros Hwf Hfix. unfold update_peer_info.
  destruct (findPeer (msg_srcMac msg) s) as [i|] eqn:Hf; [|by apply addPeer_rssi].
  destruct (findPeer_Some _ _ _ Hf) as (Hi & p & Hp & _). rewrite Hp.
  intros q Hq. unfold live_peers in Hq. simpl in Hq.
  apply elem_of_take in Hq as (j & Hj & Hlt).
  destruct (decide (j = i)) as [->|Hne].
  - rewrite list_lookup_insert_eq in Hj by (by eapply lookup_lt_Some).
    inversion Hj; subst. simpl. apply Hfix.
    apply elem_of_take. eauto.
  - rewrite list_lookup_insert_ne in Hj by done.
    apply Hfix. apply elem_of_take. eauto.
Qed.

Lemma processMessage_wf now msg s : wf s -> wf (fst (processMessage now msg s)).
Proof.
  intros Hwf. unfold processMessage.
  destruct (memcmp6 _ _); [done|].
  by apply dispatch_wf, update_peer_info_wf.
Qed.

Lemma processMessage_bounded now msg s :
  bounded s -> bounded (fst (processMessage now msg s)).
Proof.
  intros Hb. unfold processMessage.
  destruct (memcmp6 _ _); [done|].
  by apply dispatch_bounded, update_peer_info_bounded.
Qed.

Lemma processMessage_rssi now msg s :
  wf s -> rssi_fixed s -> rssi_fixed (fst (processMessage now msg s)).
Proof.
  intros Hwf Hfix. unfold processMessage.
  destruct (memcmp6 _ _); [done|].
  destruct (dispatch_peers now msg (update_peer_info now msg s)) as [H1 H2].
  pose proof (update_peer_info_rssi now msg s Hwf Hfix) as H.
  unfold rssi_fixed, live_peers in *. by rewrite H1, H2.
Qed.

Lemma meshLoop_wf now s : wf s -> wf (fst (meshLoop now s)).
Proof.
  intros Hwf. unfold meshLoop.
  destruct (_ <? _)%Z; [|done]. simpl.
  apply removeStalePeers_wf. eapply same_tables_wf; [|exact Hwf]. by repeat split.
Qed.

Lemma meshLoop_rssi now s :
  wf s -> rssi_fixed s -> rssi_fixed (fst (meshLoop now s)).
Proof.
  intros Hwf Hfix. unfold meshLoop.
  destruct (_ <? _)%Z; [|done]. simpl.
  apply removeStalePeers_rssi.
  - eapply same_tables_wf; [|exact Hwf]. by repeat split.
  - eapply same_tables_rssi; [|exact Hfix]. by repeat split.
Qed.

Lemma step_tables s out s1 :
  step s out s1 -> wf s -> rssi_fixed s -> wf s1 /\ rssi_fixed s1.
Proof.
  intros Hstep Hwf Hfix. destruct Hstep.
  - split; [eapply same_tables_wf | eapply same_tables_rssi];
      eauto using initMesh_tables.
  - unfold onDataRecv in H.
    destruct (_ <? _); [discriminate|].
    destruct (_ <? _); [discriminate|].
    pose proof (processMessage_wf now (msg_of_bytes (memcpy_into uninit buf)) s Hwf).
    pose proof (processMessage_rssi now (msg_of_bytes (memcpy_into uninit buf)) s Hwf Hfix).
    destruct (processMessage _ _ _) as [s2 out2]. inversion H; subst. auto.
  - split; [by apply meshLoop_wf | by apply meshLoop_rssi].
  - split; [eapply same_tables_wf | eapply same_tables_rssi];
      eauto using sendData_tables.
  - split; [eapply same_tables_wf | eapply same_tables_rssi];
      eauto using sendDiscovery_tables.
  - split; [eapply same_tables_wf | eapply same_tables_rssi]; eauto;
      by repeat split.
  - split; [eapply same_tables_wf | eapply same_tables_rssi]; eauto;
      by repeat split.
Qed.

Lemma globals_wf : wf globals.
Proof. unfold wf, bounded. simpl. repeat split; lia. Qed.

Lemma reachable_tables s : reachable s -> wf s /\ rssi_fixed s.
Proof.
  induction 1 as [|s out s1 _ [IHwf IHfix] Hstep].
  - split; [apply globals_wf|]. intros p Hp. by apply elem_of_nil in Hp.
  - by eapply step_tables.
Qed.

(** ** The peer update of the frame processor *)

(** C3, as stated, fails on both halves.  B is a known peer recorded as
    no gateway; a DISCOVERY from B with [data[0] = 1] refreshes
    [lastSeen] and leaves [isGateway] false.  And B unknown: its
    HEARTBEAT with payload [1; 0] (one peer, no gateway) enters it with
    [isGateway] true, read from [data[0]]. *)
Lemma peer_update_gateway_counterexample :
  live_peers met_B = [mkPeer addr_B (-50) 1 0 false true] /\
  msg_type hello_B_gateway = MSG_DISCOVERY /\ data_at hello_B_gateway 0 = 1%Z /\
  live_peers (fst (processMessage 2 hello_B_gateway met_B))
    = [mkPeer addr_B (-50) 2 0 false true] /\
  live_peers booted = [] /\
  msg_type beat_B = MSG_HEARTBEAT /\
  live_peers (fst (processMessage 5 beat_B booted))
    = [mkPeer addr_B (-50) 5 0 true true].
Proof. vm_compute. repeat split. Qed.

(** C3 (amended). For a frame from another node whose source already
    has a peer entry, the peer update sets [lastSeen] to [now] and
    [hopCount] to the frame's hop count and nothing else: [isGateway]
    (like the address, [rssi] and [isActive]) is preserved for every
    frame type, DISCOVERY included, and [data[0]] is not consulted.  For
    a DISCOVERY frame from an unknown source entering a table with
    room, the new entry takes [isGateway] from [data[0] == 1]. *)
Theorem peer_update_gateway now msg s :
  memcmp6 (msg_srcMac msg) (myMac s) = false ->
  (forall i,
     findPeer (msg_srcMac msg) s = Some i ->
     exists p,
       peers s !! i = Some p /\
       peers (fst (processMessage now msg s))
         = <[i := mkPeer (peer_mac p) (peer_rssi p) now (msg_hopCount msg)
                         (peer_isGateway p) (peer_isActive p)]> (peers s) /\
       peerCount (fst (processMessage now msg s)) = peerCount s) /\
  (findPeer (msg_srcMac msg) s = None ->
   peerCount s < MAX_PEERS ->
   msg_type msg = MSG_DISCOVERY ->
     peers (fst (processMessage now msg s))
       = <[peerCount s := mkPeer (memcpy6 (msg_srcMac msg)) (-50) now
                                 (msg_hopCount msg) (data_at msg 0 =? 1)%Z true]>
           (peers s) /\
     peerCount (fst (processMessage now msg s)) = S (peerCount s)).
Proof.
  intros Hother. unfold processMessage. rewrite Hother.
  destruct (dispatch_peers now msg (update_peer_info now msg s)) as [-> ->].
  split.
  - intros i Hf. destruct (findPeer_Some _ _ _ Hf) as (_ & p & Hp & _).
    exists p. split; [exact Hp|].
    by rewrite (update_peer_info_known now msg s i p Hf Hp).
  - intros Hf Hroom _. unfold update_peer_info. rewrite Hf.
    destruct (addPeer_cases now (msg_srcMac msg) (-50) (msg_hopCount msg)
                (data_at msg 0 =? 1)%Z s)
      as [(_ & ->) | [(Hge & _) | (Hge & _)]]; [done | lia | lia].
Qed.

Lemma peer_update_gateway_witness :
  (exists p,
     peers met_B !! 0 = Some p /\
     peers (fst (processMessage 2 hello_B_gateway met_B))
       = <[0 := mkPeer (peer_mac p) (peer_rssi p) 2 0
                       (peer_isGateway p) (peer_isActive p)]> (peers met_B) /\
     peerCount (fst (processMessage 2 hello_B_gateway met_B)) = peerCount met_B) /\
  peers (fst (processMessage 1 hello_B_gateway booted))
    = <[0 := mkPeer addr_B (-50) 1 0 true true]> (peers booted) /\
  peerCount (fst (processMessage 1 hello_B_gateway booted)) = 1.
Proof.
  split.
  - apply (proj1 (peer_update_gateway 2 hello_B_gateway met_B eq_refl) 0).
    vm_compute. reflexivity.
  - apply (proj2 (peer_update_gateway 1 hello_B_gateway booted eq_refl)).
    + vm_compute. reflexivity.
    + vm_compute. lia.
    + reflexivity.
Defined.

(** ** Reachable states *)

(** C9. In every reachable state the peer count and the route count are
    at most MAX_PEERS (20).  Peer insertion, route update, eviction and
    frame processing each preserve both bounds; an insert into a peer
    table that is full of fresh entries, and an insert of a new
    destination into a full routing table, are dropped and leave the
    state as it was. *)
Theorem table_bounds :
  (forall s, reachable s ->
     peerCount s <= MAX_PEERS /\ routeCount s <= MAX_PEERS) /\
  (forall now mac rssi h g s,
     bounded s -> bounded (snd (addPeer now mac rssi h g s))) /\
  (forall now d nh h s, bounded s -> bounded (updateRoute now d nh h s)) /\
  (forall now s, bounded s -> bounded (removeStalePeers now s)) /\
  (forall now msg s, bounded s -> bounded (fst (processMessage now msg s))) /\
  (forall now mac rssi h g s,
     peerCount s = MAX_PEERS -> length (peers s) = MAX_PEERS ->
     (forall p, p ∈ live_peers s -> (age now p < PEER_TIMEOUT)%Z) ->
     addPeer now mac rssi h g s = (None, s)) /\
  (forall now d nh h s,
     routeCount s = MAX_PEERS -> findRoute d s = None ->
     updateRoute now d nh h s = s).
Proof.
  split; [|split; [|split; [|split; [|split; [|split]]]]].
  - intros s Hs. apply reachable_tables in Hs as [(_ & _ & Hb) _]. exact Hb.
  - intros. by apply addPeer_bounded.
  - intros. by apply updateRoute_bounded.
  - intros. by apply removeStalePeers_bounded.
  - intros. by apply processMessage_bounded.
  - intros now mac rssi h g s Hfull Hlen Hfresh.
    assert (Hsame : removeStalePeers now s = s).
    { apply removeStalePeers_all_fresh; [lia|].
      intros p Hp. apply fresh_iff. by apply Hfresh. }
    destruct (addPeer_cases now mac rssi h g s)
      as [(Hlt & _) | [(_ & Hlt & _) | (_ & _ & ->)]].
    + lia.
    + rewrite Hsame in Hlt. lia.
    + by rewrite Hsame.
  - intros now d nh h s Hfull Hnone. apply updateRoute_full; [done | lia].
Qed.

Lemma booted_reachable : reachable booted.
Proof.
  eapply reach_step; [apply reach_start|].
  apply (step_init addr_own true globals).
Qed.

Lemma met_B_reachable : reachable met_B.
Proof.
  eapply reach_step; [apply booted_reachable|].
  eapply (step_recv 1 stale_stack hello_buf booted). vm_compute. reflexivity.
Qed.

Lemma table_bounds_witness :
  (peerCount met_B <= MAX_PEERS /\ routeCount met_B <= MAX_PEERS) /\
  addPeer 2 addr_B (-50) 0 false crowded = (None, crowded) /\
  updateRoute 2 addr_B addr_B 1 crowded = crowded.
Proof.
  destruct table_bounds as (Hreach & _ & _ & _ & _ & Hpeer & Hroute).
  split; [apply (Hreach met_B met_B_reachable)|].
  split.
  - apply (Hpeer 2%Z addr_B (-50)%Z 0%Z false crowded).
    + vm_compute. reflexivity.
    + vm_compute. reflexivity.
    + intros p Hp. apply fresh_iff.
      assert (H : forallb (fresh 2) (live_peers crowded) = true)
        by (vm_compute; reflexivity).
      rewrite forallb_forall in H. apply H.
      exact (proj1 (list_elem_of_In (live_peers crowded) p) Hp).
  - apply (Hroute 2%Z addr_B addr_B 1%Z crowded); vm_compute; reflexivity.
Defined.

(** C10. In every reachable state every peer entry in use has [rssi]
    equal to -50: the receive callback takes no signal strength, each
    entry is created with the constant, and refreshing or compacting
    entries never changes it. *)
Theorem rssi_constant s :
  reachable s ->
  forall i p, i < peerCount s -> peers s !! i = Some p -> peer_rssi p = (-50)%Z.
Proof.
  intros Hs i p Hi Hp. apply reachable_tables in Hs as [_ Hfix].
  apply Hfix. apply elem_of_take. eauto.
Qed.

Lemma rssi_constant_witness :
  peers met_B !! 0 = Some (mkPeer addr_B (-50) 1 0 false true) /\
  peer_rssi (mkPeer addr_B (-50) 1 0 false true) = (-50)%Z.
Proof.
  split; [vm_compute; reflexivity|].
  apply (rssi_constant met_B met_B_reachable 0).
  - vm_compute. lia.
  - vm_compute. reflexivity.
Defined.

(** * Further properties of the engine *)

(** ** Gateway selection *)

Lemma nearest_from_spec ps n : forall i nearest minHops,
  i + n <= length ps ->
  nearest_upto ps i nearest minHops ->
  exists m, nearest_upto ps (i + n) (nearest_from ps n i nearest minHops) m.
Proof.
  induction n as [|n IH]; intros i nearest minHops Hlen Hinv; simpl.
  - exists minHops. by rewrite Nat.add_0_r.
  - destruct (lookup_lt_is_Some_2 ps i) as [p Hp]; [lia|]. rewrite Hp.
    replace (i + S n) with (S i + n) by lia.
    destruct (peer_isGateway p && (peer_hopCount p <? minHops)%Z) eqn:E.
    + apply andb_true_iff in E as [Hg Hlt]. apply Z.ltb_lt in Hlt.
      apply IH; [lia|]. simpl. split; [lia|].
      exists p. split; [done|]. split; [done|]. split; [done|].
      destruct nearest as [k|]; simpl in Hinv.
      * destruct Hinv as (Hk & pk & Hpk & Hgk & Hhk & Hm & Hall & Hfirst).
        split; [lia|]. split.
        -- intros j q Hj Hq Hgq. destruct (decide (j = i)) as [->|Hne].
           ++ rewrite Hp in Hq. inversion Hq; subst. lia.
           ++ specialize (Hall j q ltac:(lia) Hq Hgq). lia.
        -- intros j q Hj Hq Hgq. specialize (Hall j q ltac:(lia) Hq Hgq). lia.
      * destruct Hinv as (Hm & Hall). subst minHops.
        split; [lia|]. split.
        -- intros j q Hj Hq Hgq. destruct (decide (j = i)) as [->|Hne].
           ++ rewrite Hp in Hq. inversion Hq; subst. lia.
           ++ specialize (Hall j q ltac:(lia) Hq Hgq). lia.
        -- intros j q Hj Hq Hgq. specialize (Hall j q ltac:(lia) Hq Hgq). lia.
    + apply IH; [lia|].
      assert (Hp' : peer_isGateway p = true -> (minHops <= peer_hopCount p)%Z).
      { intros Hg. rewrite Hg in E. simpl in E. by apply Z.ltb_ge in E. }
      destruct nearest as [k|]; simpl in *.
      * destruct Hinv as (Hk & pk & Hpk & Hgk & Hhk & Hm & Hall & Hfirst).
        split; [lia|]. exists pk. repeat split; auto.
        intros j q Hj Hq Hgq. destruct (decide (j = i)) as [->|Hne].
        -- rewrite Hp in Hq. inversion Hq; subst. auto.
        -- apply (Hall j q); auto. lia.
      * destruct Hinv as (Hm & Hall). split; [done|].
        intros j q Hj Hq Hgq. destruct (decide (j = i)) as [->|Hne].
        -- rewrite Hp in Hq. inversion Hq; subst. specialize (Hp' Hgq). lia.
        -- apply (Hall j q); auto. lia.
Qed.

(** X1. When [getNearestGateway] returns an entry, it is a live gateway
    peer with hop count below 255, no live gateway has a smaller hop
    count, and every gateway at an earlier index has a strictly larger
    one (ties go to the earliest slot). *)
Theorem nearest_gateway_is_best s k :
  peerCount s <= length (peers s) ->
  getNearestGateway s = Some k ->
  k < peerCount s /\
  exists pk,
    peers s !! k = Some pk /\ peer_isGateway pk = true /\
    (peer_hopCount pk < 255)%Z /\
    (forall j p, j < peerCount s -> peers s !! j = Some p ->
                 peer_isGateway p = true ->
                 (peer_hopCount pk <= peer_hopCount p)%Z) /\
    (forall j p, j < k -> peers s !! j = Some p ->
                 peer_isGateway p = true ->
                 (peer_hopCount pk < peer_hopCount p)%Z).
Proof.
  intros Hlen Hk. unfold getNearestGateway in Hk.
  destruct (nearest_from_spec (peers s) (peerCount s) 0 None 255) as [m Hm].
  - lia.
  - simpl. split; [done|]. intros j p Hj. lia.
  - rewrite Hk in Hm. simpl in Hm.
    destruct Hm as (Hlt & pk & Hpk & Hg & Hh & Hm & Hall & Hfirst).
    split; [lia|]. exists pk. subst m. repeat split; auto.
Qed.

(** X2. [getNearestGateway] returns nullptr exactly when no live peer
    is a gateway with hop count below 255; in particular a gateway
    recorded with hop count 255 is never selected. *)
Theorem nearest_gateway_none s :
  peerCount s <= length (peers s) ->
  (getNearestGateway s = None <->
   forall j p, j < peerCount s -> peers s !! j = Some p ->
               peer_isGateway p = true -> (255 <= peer_hopCount p)%Z).
Proof.
  intros Hlen. unfold getNearestGateway.
  destruct (nearest_from_spec (peers s) (peerCount s) 0 None 255) as [m Hm].
  - lia.
  - simpl. split; [done|]. intros j p Hj. lia.
  - destruct (nearest_from (peers s) (peerCount s) 0 None 255) as [k|];
      simpl in Hm.
    + destruct Hm as (Hk & pk & Hpk & Hg & Hh & Hlt & _).
      split; [discriminate|]. intros Hall.
      specialize (Hall k pk ltac:(lia) Hpk Hg). lia.
    + destruct Hm as [_ Hall]. split; [|done].
      intros _ j p Hj. apply Hall. lia.
Qed.

Lemma nearest_gateway_is_best_witness :
  getNearestGateway gateways_seen = Some 1 /\
  exists pk,
    peers gateways_seen !! 1 = Some pk /\ peer_isGateway pk = true /\
    (peer_hopCount pk < 255)%Z /\
    (forall j p, j < peerCount gateways_seen -> peers gateways_seen !! j = Some p ->
                 peer_isGateway p = true ->
                 (peer_hopCount pk <= peer_hopCount p)%Z) /\
    (forall j p, j < 1 -> peers gateways_seen !! j = Some p ->
                 peer_isGateway p = true ->
                 (peer_hopCount pk < peer_hopCount p)%Z).
Proof.
  split; [vm_compute; reflexivity|].
  apply (nearest_gateway_is_best gateways_seen 1).
  - vm_compute. lia.
  - vm_compute. reflexivity.
Defined.

Lemma nearest_gateway_none_witness :
  map peer_hopCount (live_peers far_gateway) = [255%Z] /\
  map peer_isGateway (live_peers far_gateway) = [true] /\
  getNearestGateway far_gateway = None.
Proof.
  split; [vm_compute; reflexivity|]. split; [vm_compute; reflexivity|].
  apply (nearest_gateway_none far_gateway).
  - vm_compute. lia.
  - intros j p Hj Hp _.
    assert (Hc : peerCount far_gateway = 1) by (vm_compute; reflexivity).
    rewrite Hc in Hj. destruct j as [|j]; [|lia].
    assert (Hl : peers far_gateway !! 0
                 = Some (mkPeer (neighbour 1) (-50) 1 255 true true))
      by (vm_compute; reflexivity).
    rewrite Hl in Hp. inversion Hp; subst. simpl. lia.
Defined.

(** ** The frame on the air and back *)

Lemma memcpy6_id a : length a = 6 -> memcpy6 a = a.
Proof.
  intros H. do 7 (destruct a as [|? a]; try discriminate). reflexivity.
Qed.

Lemma header_bytes_length msg : length (header_bytes msg) = 18.
Proof. reflexivity. Qed.

(** The struct a receiver holds after copying [18 + n] sent bytes over
    its local [msg]. *)
Lemma decode_struct_prefix msg uninit n :
  n <= length (msg_data msg) ->
  msg_of_bytes (memcpy_into uninit (take (18 + n) (struct_bytes msg)))
    = mkMsg (msg_type msg) (memcpy6 (msg_srcMac msg)) (memcpy6 (msg_dstMac msg))
            (msg_hopCount msg)
            (msg_sequenceNum msg mod 256 + 256 * (msg_sequenceNum msg / 256))%Z
            (msg_dataLen msg mod 256 + 256 * (msg_dataLen msg / 256))%Z
            (take n (msg_data msg) ++ drop (18 + n) uninit).
Proof.
  intros Hn. unfold struct_bytes, memcpy_into.
  rewrite take_app, header_bytes_length.
  rewrite (take_ge (header_bytes msg)) by (rewrite header_bytes_length; lia).
  replace (18 + n - 18) with n by lia.
  rewrite length_app, header_bytes_length, length_take_le by lia.
  rewrite <- app_assoc. reflexivity.
Qed.

Lemma split_256 a : (a mod 256 + 256 * (a / 256) = a)%Z.
Proof. pose proof (Z.div_mod a 256 ltac:(lia)). lia. Qed.

Lemma decode_sent msg uninit :
  (0 <= msg_dataLen msg <= 200)%Z ->
  Z.to_nat (msg_dataLen msg) <= length (msg_data msg) ->
  msg_of_bytes
    (memcpy_into uninit (take (Z.to_nat (msgLen_of msg)) (struct_bytes msg)))
    = mkMsg (msg_type msg) (memcpy6 (msg_srcMac msg)) (memcpy6 (msg_dstMac msg))
            (msg_hopCount msg) (msg_sequenceNum msg) (msg_dataLen msg)
            (take (Z.to_nat (msg_dataLen msg)) (msg_data msg)
               ++ drop (18 + Z.to_nat (msg_dataLen msg)) uninit).
Proof.
  intros Hdl Hdata. unfold msgLen_of, u16.
  rewrite Z.mod_small by lia.
  replace (Z.to_nat (18 + msg_dataLen msg)) with (18 + Z.to_nat (msg_dataLen msg))
    by lia.
  rewrite decode_struct_prefix by exact Hdata.
  by rewrite !split_256.
Qed.

(** X3. Wire round trip.  A frame with six-byte addresses and a payload
    of [dataLen <= 200] bytes, handed to the link driver by
    [sendBroadcast] or [sendUnicast], is between 18 and 218 bytes long
    on the air, and the struct the receive callback builds from those
    bytes has the same type, source, destination, hop count, sequence
    number and [dataLen] and the same first [dataLen] payload bytes,
    whatever the receiver's local struct held before. *)
Theorem wire_round_trip msg dest uninit :
  length (msg_srcMac msg) = 6 -> length (msg_dstMac msg) = 6 ->
  (0 <= msg_dataLen msg <= 200)%Z ->
  Z.to_nat (msg_dataLen msg) <= length (msg_data msg) ->
  wire_bytes (sendBroadcast msg) = wire_bytes (sendUnicast dest msg) /\
  18 <= length (wire_bytes (sendBroadcast msg)) <= 218 /\
  let got := msg_of_bytes (memcpy_into uninit (wire_bytes (sendBroadcast msg))) in
  msg_type got = msg_type msg /\
  msg_srcMac got = msg_srcMac msg /\
  msg_dstMac got = msg_dstMac msg /\
  msg_hopCount got = msg_hopCount msg /\
  msg_sequenceNum got = msg_sequenceNum msg /\
  msg_dataLen got = msg_dataLen msg /\
  take (Z.to_nat (msg_dataLen msg)) (msg_data got)
    = take (Z.to_nat (msg_dataLen msg)) (msg_data msg).
Proof.
  intros Hsrc Hdst Hdl Hdata.
  split; [reflexivity|]. split.
  - unfold wire_bytes, sendBroadcast, msgLen_of, u16.
    rewrite Z.mod_small by lia. rewrite length_take.
    unfold struct_bytes. rewrite length_app, header_bytes_length. lia.
  - unfold wire_bytes, sendBroadcast. rewrite decode_sent by assumption.
    simpl. rewrite !memcpy6_id by assumption.
    repeat split.
    rewrite take_app_le by (rewrite length_take; lia).
    rewrite take_take. f_equal. lia.
Qed.

Lemma wire_round_trip_witness :
  let got := msg_of_bytes
               (memcpy_into stale_stack (wire_bytes (sendBroadcast transit_frame))) in
  length (wire_bytes (sendBroadcast transit_frame)) = 20 /\
  msg_type got = MSG_DATA /\ msg_srcMac got = addr_B /\ msg_dstMac got = addr_D /\
  msg_dataLen got = 2%Z /\ take 2 (msg_data got) = [104; 105]%Z.
Proof.
  destruct (wire_round_trip transit_frame addr_D stale_stack)
    as (_ & _ & Ht & Hs & Hd & _ & _ & Hl & Hp).
  - reflexivity.
  - reflexivity.
  - vm_compute. split; discriminate.
  - vm_compute. lia.
  - split; [vm_compute; reflexivity|].
    split; [exact Ht|]. split; [exact Hs|]. split; [exact Hd|].
    split; [exact Hl|]. exact Hp.
Defined.

(** ** What the peer update leaves alone *)

Lemma addPeer_other now mac rssi h g s :
  myMac (snd (addPeer now mac rssi h g s)) = myMac s /\
  routingTable (snd (addPeer now mac rssi h g s)) = routingTable s /\
  routeCount (snd (addPeer now mac rssi h g s)) = routeCount s /\
  sequenceNumber (snd (addPeer now mac rssi h g s)) = sequenceNumber s /\
  isGateway (snd (addPeer now mac rssi h g s)) = isGateway s /\
  lastHeartbeat (snd (addPeer now mac rssi h g s)) = lastHeartbeat s /\
  onDataReceived (snd (addPeer now mac rssi h g s)) = onDataReceived s.
Proof.
  destruct (addPeer_cases now mac rssi h g s)
    as [(_ & ->) | [(_ & _ & ->) | (_ & _ & ->)]]; simpl;
    try apply removeStalePeers_other.
  repeat split.
Qed.

Lemma update_peer_info_other now msg s :
  myMac (update_peer_info now msg s) = myMac s /\
  routingTable (update_peer_info now msg s) = routingTable s /\
  routeCount (update_peer_info now msg s) = routeCount s /\
  sequenceNumber (update_peer_info now msg s) = sequenceNumber s /\
  isGateway (update_peer_info now msg s) = isGateway s /\
  lastHeartbeat (update_peer_info now msg s) = lastHeartbeat s /\
  onDataReceived (update_peer_info now msg s) = onDataReceived s.
Proof.
  unfold update_peer_info.
  destruct (findPeer (msg_srcMac msg) s) as [i|]; [|apply addPeer_other].
  destruct (peers s !! i); repeat split.
Qed.

(** ** Delivery to the application *)

Lemma handleData_snd_same msg s s1 :
  myMac s1 = myMac s -> routingTable s1 = routingTable s ->
  routeCount s1 = routeCount s -> onDataReceived s1 = onDataReceived s ->
  snd (handleData msg s1) = snd (handleData msg s).
Proof.
  intros H1 H2 H3 H4. unfold handleData, findRoute. rewrite H1, H2, H3, H4.
  destruct (memcmp6 _ _); [done|]. destruct (_ <? _)%Z; [|done].
  destruct (find_from _ _ _ _) as [i|]; [|done].
  by destruct (routingTable s !! i).
Qed.

Lemma processMessage_data now msg s :
  memcmp6 (msg_srcMac msg) (myMac s) = false ->
  msg_type msg = MSG_DATA ->
  snd (processMessage now msg s) = snd (handleData msg s).
Proof.
  intros Hsrc Hty. unfold processMessage, dispatch. rewrite Hsrc, Hty. simpl.
  destruct (update_peer_info_other now msg s) as (H1 & H2 & H3 & _ & _ & _ & H7).
  by apply handleData_snd_same.
Qed.

Lemma processMessage_data_for_us now msg s :
  memcmp6 (msg_srcMac msg) (myMac s) = false ->
  msg_type msg = MSG_DATA ->
  memcmp6 (msg_dstMac msg) (myMac s) = true ->
  snd (processMessage now msg s)
    = if onDataReceived s
      then [Deliver (msg_srcMac msg) (msg_data msg) (msg_dataLen msg)]
      else [].
Proof.
  intros Hsrc Hty Hdst. rewrite processMessage_data by assumption.
  unfold handleData. by rewrite Hdst.
Qed.

(** X4. The application callback is invoked exactly for DATA frames
    from another node whose destination is the node's own address, with
    a callback registered; it then receives the frame's source, payload
    array and [dataLen], and nothing is sent, whatever the frame's hop
    count.  No other frame type, and no frame addressed elsewhere
    (broadcast included), is ever delivered. *)
Theorem delivery_exact now msg s :
  (forall a d l,
     Deliver a d l ∈ snd (processMessage now msg s) <->
     memcmp6 (msg_srcMac msg) (myMac s) = false /\
     msg_type msg = MSG_DATA /\
     memcmp6 (msg_dstMac msg) (myMac s) = true /\
     onDataReceived s = true /\
     a = msg_srcMac msg /\ d = msg_data msg /\ l = msg_dataLen msg) /\
  (memcmp6 (msg_srcMac msg) (myMac s) = false ->
   msg_type msg = MSG_DATA ->
   memcmp6 (msg_dstMac msg) (myMac s) = true ->
   snd (processMessage now msg s)
     = if onDataReceived s
       then [Deliver (msg_srcMac msg) (msg_data msg) (msg_dataLen msg)]
       else []).
Proof.
  split; [|apply processMessage_data_for_us].
  intros a d l. split.
  - intros Hin.
    destruct (memcmp6 (msg_srcMac msg) (myMac s)) eqn:Hsrc.
    { unfold processMessage in Hin. rewrite Hsrc in Hin. one_effect Hin. }
    destruct (Z.eq_dec (msg_type msg) MSG_DATA) as [Hty|Hty].
    + rewrite processMessage_data in Hin by assumption.
      unfold handleData in Hin.
      destruct (memcmp6 (msg_dstMac msg) (myMac s)) eqn:Hdst.
      * simpl in Hin. destruct (onDataReceived s); one_effect Hin.
        inversion Hin; subst. by repeat split.
      * destruct (_ <? _)%Z; [|one_effect Hin].
        destruct (findRoute _ s) as [i|].
        -- destruct (routingTable s !! i); simpl in Hin; one_effect Hin.
           discriminate.
        -- simpl in Hin. one_effect Hin. discriminate.
    + exfalso. unfold processMessage, dispatch in Hin. rewrite Hsrc in Hin.
      destruct (msg_type msg =? MSG_DISCOVERY)%Z.
      { unfold handleDiscovery in Hin.
        destruct (_ <? _)%Z; simpl in Hin; one_effect Hin. discriminate. }
      destruct (msg_type msg =? MSG_HEARTBEAT)%Z; [one_effect Hin|].
      destruct (msg_type msg =? MSG_DATA)%Z eqn:E;
        [apply Z.eqb_eq in E; contradiction|].
      destruct (msg_type msg =? MSG_ROUTE_REQUEST)%Z.
      { unfold handleRouteRequest in Hin.
        destruct (_ || _); [simpl in Hin; one_effect Hin; discriminate|].
        destruct (_ <? _)%Z; simpl in Hin; one_effect Hin. discriminate. }
      destruct (msg_type msg =? MSG_ROUTE_REPLY)%Z; one_effect Hin.
  - intros (Hsrc & Hty & Hdst & Hcb & -> & -> & ->).
    rewrite processMessage_data_for_us by assumption.
    rewrite Hcb. apply list_elem_of_here.
Qed.

(** X5. End to end over one hop: the bytes [sendData] hands to the
    link driver for destination [b], received by node [b] with a
    callback registered, make [b] deliver the sender's address, the
    clipped length [min(len, 200)] and a payload array that starts with
    the first [min(len, 200)] bytes the application gave. *)
Theorem send_then_deliver now uninit data len sa sb :
  memcmp6 (myMac sa) (myMac sb) = false ->
  onDataReceived sb = true ->
  (0 <= len)%Z ->
  Z.to_nat (clip_len len) <= length data ->
  exists e sb1 got,
    snd (sendData (myMac sb) data len sa) = [e] /\
    onDataRecv now uninit (wire_bytes e) sb
      = Processed sb1 [Deliver (memcpy6 (myMac sa)) got (clip_len len)] /\
    take (Z.to_nat (clip_len len)) got = take (Z.to_nat (clip_len len)) data.
Proof.
  intros Hab Hcb Hlen Hdata.
  assert (Hclip : (0 <= clip_len len <= 200)%Z).
  { unfold clip_len. destruct (200 <? len)%Z eqn:E; [lia|].
    apply Z.ltb_ge in E. lia. }
  unfold sendData. fold (clip_len len). simpl.
  set (msg := mkMsg MSG_DATA (memcpy6 (myMac sa)) (memcpy6 (myMac sb)) 0
                    (sequenceNumber sa) (clip_len len)
                    (take (Z.to_nat (clip_len len)) data)).
  set (nh := match findRoute (myMac sb) sa with
             | Some i => match routingTable sa !! i with
                         | Some r => route_nextHop r
                         | None => myMac sb
                         end
             | None => myMac sb
             end).
  assert (Hdec : msg_of_bytes (memcpy_into uninit (wire_bytes (sendUnicast nh msg)))
                 = mkMsg MSG_DATA (memcpy6 (myMac sa)) (memcpy6 (myMac sb)) 0
                         (sequenceNumber sa) (clip_len len)
                         (take (Z.to_nat (clip_len len)) data
                            ++ drop (18 + Z.to_nat (clip_len len)) uninit)).
  { unfold wire_bytes, sendUnicast. rewrite decode_sent.
    - subst msg. simpl. f_equal. f_equal. rewrite take_take. f_equal. lia.
    - exact Hclip.
    - subst msg. simpl. rewrite length_take. lia. }
  set (got := take (Z.to_nat (clip_len len)) data
                ++ drop (18 + Z.to_nat (clip_len len)) uninit) in *.
  exists (sendUnicast nh msg),
         (fst (processMessage now
                 (msg_of_bytes (memcpy_into uninit (wire_bytes (sendUnicast nh msg))))
                 sb)),
         got.
  split; [reflexivity|]. split.
  - assert (Hsize : 18 <= length (wire_bytes (sendUnicast nh msg)) <= 218).
    { unfold wire_bytes, sendUnicast, msgLen_of, u16. subst msg. simpl.
      rewrite Z.mod_small by lia. rewrite length_take.
      unfold struct_bytes. rewrite length_app, header_bytes_length. simpl.
      rewrite length_take. lia. }
    unfold onDataRecv, HEADER_SIZE, MSG_SIZE.
    destruct (_ <? 18) eqn:E1; [apply Nat.ltb_lt in E1; lia|].
    destruct (218 <? _) eqn:E2; [apply Nat.ltb_lt in E2; lia|].
    rewrite Hdec.
    match goal with
    | |- context [processMessage now ?m sb] =>
        pose proof (processMessage_data_for_us now m sb) as Hd;
        destruct (processMessage now m sb) as [sb1 out]
    end.
    cbn [msg_srcMac msg_dstMac msg_type msg_data msg_dataLen snd] in Hd.
    rewrite Hcb in Hd. rewrite Hd; [reflexivity | | reflexivity |].
    + rewrite memcmp6_memcpy6_l. exact Hab.
    + rewrite memcmp6_memcpy6_l. apply memcmp6_refl.
  - subst got. rewrite take_app_le by (rewrite length_take; lia).
    rewrite take_take. f_equal. lia.
Qed.

Lemma delivery_exact_witness :
  snd (processMessage 5 (mkMsg MSG_DATA addr_B addr_own 9 0 2 [104; 105]%Z) listening)
    = [Deliver addr_B [104; 105]%Z 2] /\
  (Deliver addr_B [104; 105]%Z 1 ∈ snd (processMessage 5 transit_frame listening) ->
   msg_type transit_frame = MSG_DATA /\
   memcmp6 (msg_dstMac transit_frame) (myMac listening) = true).
Proof.
  split.
  - apply (proj2 (delivery_exact 5
             (mkMsg MSG_DATA addr_B addr_own 9 0 2 [104; 105]%Z) listening));
      vm_compute; reflexivity.
  - intros Hin.
    apply (proj1 (delivery_exact 5 transit_frame listening)) in Hin.
    tauto.
Defined.

Lemma send_then_deliver_witness :
  exists e sb1 got,
    snd (sendData (myMac listening) [104; 105; 106]%Z 2 sender_B) = [e] /\
    onDataRecv 7 stale_stack (wire_bytes e) listening
      = Processed sb1 [Deliver (memcpy6 (myMac sender_B)) got (clip_len 2)] /\
    take (Z.to_nat (clip_len 2)) got
      = take (Z.to_nat (clip_len 2)) [104; 105; 106]%Z.
Proof.
  apply (send_then_deliver 7 stale_stack [104; 105; 106]%Z 2 sender_B listening).
  - vm_compute. reflexivity.
  - vm_compute. reflexivity.
  - lia.
  - vm_compute. lia.
Defined.

(** ** Uniqueness of table entries *)

Lemma memcmp6_sym a b : memcmp6 a b = memcmp6 b a.
Proof.
  unfold memcmp6. simpl.
  by rewrite !(Z.eqb_sym (nth _ a 0%Z)).
Qed.

Section Distinct.
Context {A : Type} (key : A -> list Z).

Lemma distinct_by_filter (P : A -> Prop) `{!forall x, Decision (P x)} l :
  distinct_by key l -> distinct_by key (filter P l).
Proof.
  induction l as [|x l IH]; [done|]. intros [Hx Hl].
  rewrite filter_cons. destruct (decide (P x)); [|by apply IH].
  split; [|by apply IH].
  apply Forall_forall. intros y Hy. apply list_elem_of_filter in Hy as [_ Hy].
  rewrite Forall_forall in Hx. by apply Hx.
Qed.

Lemma distinct_by_snoc l x :
  distinct_by key l ->
  Forall (fun y => memcmp6 (key y) (key x) = false) l ->
  distinct_by key (l ++ [x]).
Proof.
  induction l as [|y l IH]; intros Hl Hx; simpl; [by split|].
  destruct Hl as [Hy Hl]. apply Forall_cons in Hx as [Hyx Hx].
  split; [|by apply IH].
  apply Forall_app. split; [done|]. by apply Forall_singleton.
Qed.

Lemma distinct_by_keys l1 l2 :
  map key l1 = map key l2 -> distinct_by key l1 -> distinct_by key l2.
Proof.
  revert l2. induction l1 as [|x l1 IH]; intros [|y l2] Hmap; try discriminate;
    [done|].
  simpl in Hmap. inversion Hmap as [[Hxy Hrest]]. intros [Hx Hl]. split.
  - rewrite <- Hxy. clear IH Hl Hmap. revert l2 Hrest.
    induction l1 as [|a l1 IH1]; intros [|b l2] Hrest; try discriminate;
      [constructor|].
    simpl in Hrest. inversion Hrest as [[Hab Hr]].
    apply Forall_cons in Hx as [Ha Hx]. constructor.
    + by rewrite <- Hab.
    + by apply IH1.
  - by apply IH.
Qed.

Lemma distinct_by_lookup l i j x y :
  distinct_by key l -> i < j -> l !! i = Some x -> l !! j = Some y ->
  memcmp6 (key x) (key y) = false.
Proof.
  revert i j. induction l as [|a l IH]; intros i j Hd Hij Hi Hj; [done|].
  destruct Hd as [Ha Hl]. destruct j as [|j]; [lia|]. simpl in Hj.
  destruct i as [|i].
  - simpl in Hi. inversion Hi; subst. rewrite Forall_forall in Ha.
    apply Ha. apply list_elem_of_lookup. eauto.
  - simpl in Hi. apply (IH i j); auto. lia.
Qed.
End Distinct.

(** How a handler can touch the routing table: not at all, or by one
    [updateRoute] on a state with the same tables. *)
Lemma dispatch_shape now msg s :
  (routingTable (fst (dispatch now msg s)) = routingTable s /\
   routeCount (fst (dispatch now msg s)) = routeCount s) \/
  (exists d nh h s0,
     same_tables s s0 /\ fst (dispatch now msg s) = updateRoute now d nh h s0).
Proof.
  unfold dispatch.
  destruct (msg_type msg =? MSG_DISCOVERY)%Z.
  { right. unfold handleDiscovery.
    destruct (msg_hopCount msg <? 3)%Z; simpl.
    - eexists _, _, _, _. split; [|reflexivity]. by repeat split.
    - eexists _, _, _, _. split; [|reflexivity]. by repeat split. }
  destruct (msg_type msg =? MSG_HEARTBEAT)%Z; [by left|].
  destruct (msg_type msg =? MSG_DATA)%Z.
  { left. unfold handleData.
    destruct (memcmp6 _ _); [done|].
    destruct (_ <? _)%Z; [|done].
    destruct (findRoute _ s) as [i|]; [|done].
    by destruct (routingTable s !! i). }
  destruct (msg_type msg =? MSG_ROUTE_REQUEST)%Z.
  { left. unfold handleRouteRequest.
    destruct (_ || _); [done|]. by destruct (_ <? _)%Z. }
  destruct (msg_type msg =? MSG_ROUTE_REPLY)%Z; [|by left].
  right. eexists _, _, _, s. split; [apply same_tables_refl | reflexivity].
Qed.

Lemma findPeer_None_all mac s :
  peerCount s <= length (peers s) ->
  findPeer mac s = None ->
  Forall (fun p => memcmp6 (peer_mac p) mac = false) (live_peers s).
Proof.
  intros Hlen Hf. apply Forall_forall. intros p Hp.
  apply elem_of_take in Hp as (j & Hj & Hlt).
  apply (find_from_None (fun q => memcmp6 (peer_mac q) mac)
           (peers s) (peerCount s) 0 ltac:(lia) Hf j p ltac:(lia) Hj).
Qed.

Lemma findRoute_None_all d s :
  routeCount s <= length (routingTable s) ->
  findRoute d s = None ->
  Forall (fun r => memcmp6 (route_destination r) d = false)
         (take (routeCount s) (routingTable s)).
Proof.
  intros Hlen Hf. apply Forall_forall. intros r Hr.
  apply elem_of_take in Hr as (j & Hj & Hlt).
  apply (find_from_None (fun q => memcmp6 (route_destination q) d)
           (routingTable s) (routeCount s) 0 ltac:(lia) Hf j r ltac:(lia) Hj).
Qed.

Lemma removeStalePeers_unique now s :
  wf s -> peers_unique s -> peers_unique (removeStalePeers now s).
Proof.
  intros (Hp & _ & Hpc & _) Hu. unfold peers_unique.
  rewrite removeStalePeers_live by lia. by apply distinct_by_filter.
Qed.

Lemma addPeer_unique now mac rssi h g s :
  wf s -> peers_unique s -> findPeer mac s = None ->
  peers_unique (snd (addPeer now mac rssi h g s)).
Proof.
  intros Hwf Hu Hnone.
  pose proof (removeStalePeers_wf now s Hwf) as Hwf1.
  pose proof (removeStalePeers_unique now s Hwf Hu) as Hu1.
  assert (Hall : Forall (fun p => memcmp6 (peer_mac p) mac = false) (live_peers s)).
  { destruct Hwf as (Hp & _ & Hpc & _). apply findPeer_None_all; [lia | done]. }
  assert (Hall1 : Forall (fun p => memcmp6 (peer_mac p) mac = false)
                         (live_peers (removeStalePeers now s))).
  { destruct Hwf as (Hp & _ & Hpc & _).
    rewrite removeStalePeers_live by lia.
    apply Forall_forall. intros p Hin.
    apply list_elem_of_filter in Hin as [_ Hin].
    rewrite Forall_forall in Hall. by apply Hall. }
  destruct (addPeer_cases now mac rssi h g s)
    as [(Hlt & ->) | [(Hge & Hlt & ->) | (Hge & Hge1 & ->)]]; simpl.
  - unfold peers_unique, live_peers. simpl.
    destruct Hwf as (Hp & _).
    rewrite insert_next_live by lia. apply distinct_by_snoc; [exact Hu|].
    simpl. eapply Forall_impl; [exact Hall|]. intros p Hpm.
    by rewrite memcmp6_memcpy6_r.
  - unfold peers_unique, live_peers. simpl.
    destruct Hwf1 as (Hp & _).
    rewrite insert_next_live by lia. apply distinct_by_snoc; [exact Hu1|].
    simpl. eapply Forall_impl; [exact Hall1|]. intros p Hpm.
    by rewrite memcmp6_memcpy6_r.
  - exact Hu1.
Qed.

Lemma update_peer_info_unique now msg s :
  wf s -> peers_unique s -> peers_unique (update_peer_info now msg s).
Proof.
  intros Hwf Hu. unfold update_peer_info.
  destruct (findPeer (msg_srcMac msg) s) as [i|] eqn:Hf;
    [|by apply addPeer_unique].
  destruct (findPeer_Some _ _ _ Hf) as (Hi & p & Hp & _). rewrite Hp.
  unfold peers_unique, live_peers in *. simpl.
  eapply distinct_by_keys; [|exact Hu].
  rewrite take_insert_lt by lia.
  change (map peer_mac ?l) with (peer_mac <$> l).
  rewrite list_fmap_insert. simpl.
  symmetry. apply list_insert_id.
  rewrite list_lookup_fmap, lookup_take_lt by lia. by rewrite Hp.
Qed.

Lemma updateRoute_unique now d nh h s :
  wf s -> routes_unique s -> routes_unique (updateRoute now d nh h s).
Proof.
  intros (_ & Hr & _ & Hrc) Hu. unfold routes_unique in *.
  destruct (findRoute d s) as [i|] eqn:Hf.
  - destruct (findRoute_Some _ _ _ Hf) as (Hi & e & He & _).
    rewrite (updateRoute_existing now d nh h s i e Hf He). simpl.
    eapply distinct_by_keys; [|exact Hu].
    rewrite take_insert_lt by lia.
    change (map route_destination ?l) with (route_destination <$> l).
    rewrite list_fmap_insert. simpl.
    symmetry. apply list_insert_id.
    rewrite list_lookup_fmap, lookup_take_lt by lia. by rewrite He.
  - destruct (decide (routeCount s < MAX_PEERS)) as [Hlt|Hge].
    + rewrite (updateRoute_new now d nh h s Hf Hlt). simpl.
      rewrite (take_S_r _ _ (mkRoute (memcpy6 d) (memcpy6 nh) h now))
        by (apply list_lookup_insert_eq; lia).
      rewrite take_insert_ge by lia.
      apply distinct_by_snoc; [exact Hu|]. simpl.
      eapply Forall_impl; [apply findRoute_None_all; [lia | exact Hf]|].
      intros r Hrd. simpl in Hrd. by rewrite memcmp6_memcpy6_r.
    + rewrite updateRoute_full; [exact Hu | exact Hf | lia].
Qed.

Lemma same_tables_ok s s1 : same_tables s s1 -> tables_ok s -> tables_ok s1.
Proof.
  intros Hsame (Hwf & Hp & Hr). split; [by eapply same_tables_wf|].
  destruct Hsame as (H1 & H2 & H3 & H4).
  unfold peers_unique, routes_unique, live_peers in *.
  by rewrite H1, H2, H3, H4.
Qed.

Lemma removeStalePeers_ok now s : tables_ok s -> tables_ok (removeStalePeers now s).
Proof.
  intros (Hwf & Hp & Hr).
  split; [by apply removeStalePeers_wf|].
  split; [by apply removeStalePeers_unique|].
  destruct (removeStalePeers_other now s) as (_ & H1 & H2 & _).
  unfold routes_unique. by rewrite H1, H2.
Qed.

Lemma processMessage_ok now msg s :
  tables_ok s -> tables_ok (fst (processMessage now msg s)).
Proof.
  intros (Hwf & Hp & Hr). unfold processMessage.
  destruct (memcmp6 _ _); [done|].
  assert (Hok1 : tables_ok (update_peer_info now msg s)).
  { split; [by apply update_peer_info_wf|].
    split; [by apply update_peer_info_unique|].
    destruct (update_peer_info_other now msg s) as (_ & H1 & H2 & _).
    unfold routes_unique. by rewrite H1, H2. }
  set (s1 := update_peer_info now msg s) in *.
  destruct Hok1 as (Hwf1 & Hp1 & Hr1).
  split; [by apply dispatch_wf|]. split.
  - destruct (dispatch_peers now msg s1) as [H1 H2].
    unfold peers_unique, live_peers. by rewrite H1, H2.
  - destruct (dispatch_shape now msg s1) as [[H1 H2] | (d & nh & h & s0 & Hsame & ->)].
    + unfold routes_unique. by rewrite H1, H2.
    + destruct (same_tables_ok s1 s0 Hsame (conj Hwf1 (conj Hp1 Hr1)))
        as (Hwf0 & _ & Hr0).
      by apply updateRoute_unique.
Qed.

Lemma step_ok s out s1 : step s out s1 -> tables_ok s -> tables_ok s1.
Proof.
  intros Hstep Hok. destruct Hstep.
  - eapply same_tables_ok; eauto using initMesh_tables.
  - unfold onDataRecv in H.
    destruct (_ <? _); [discriminate|].
    destruct (_ <? _); [discriminate|].
    pose proof (processMessage_ok now (msg_of_bytes (memcpy_into uninit buf)) s Hok).
    destruct (processMessage _ _ _) as [s2 out2]. inversion H; subst. auto.
  - unfold meshLoop. destruct (_ <? _)%Z; [|done]. simpl.
    apply removeStalePeers_ok. eapply same_tables_ok; [|exact Hok].
    by repeat split.
  - eapply same_tables_ok; eauto using sendData_tables.
  - eapply same_tables_ok; eauto using sendDiscovery_tables.
  - eapply same_tables_ok; eauto. by repeat split.
  - eapply same_tables_ok; eauto. by repeat split.
Qed.

Lemma reachable_ok s : reachable s -> tables_ok s.
Proof.
  induction 1 as [|s out s1 _ IH Hstep].
  - split; [apply globals_wf|]. by split.
  - by eapply step_ok.
Qed.

(** X6. Peer uniqueness: in every reachable state no two peer entries
    in use hold addresses that [memcmp] finds equal. *)
Theorem peer_addresses_unique s :
  reachable s ->
  forall i j p q,
    i < peerCount s -> j < peerCount s -> i <> j ->
    peers s !! i = Some p -> peers s !! j = Some q ->
    memcmp6 (peer_mac p) (peer_mac q) = false.
Proof.
  intros Hs i j p q Hi Hj Hne Hp Hq.
  apply reachable_ok in Hs as (_ & Hu & _). unfold peers_unique, live_peers in Hu.
  destruct (decide (i < j)) as [Hlt|Hge].
  - eapply (distinct_by_lookup peer_mac _ i j); eauto;
      by rewrite lookup_take_lt.
  - rewrite memcmp6_sym.
    eapply (distinct_by_lookup peer_mac _ j i); eauto; [lia | |];
      by rewrite lookup_take_lt.
Qed.

(** X7. Route uniqueness: in every reachable state no two routing
    entries in use hold destinations that [memcmp] finds equal. *)
Theorem route_destinations_unique s :
  reachable s ->
  forall i j p q,
    i < routeCount s -> j < routeCount s -> i <> j ->
    routingTable s !! i = Some p -> routingTable s !! j = Some q ->
    memcmp6 (route_destination p) (route_destination q) = false.
Proof.
  intros Hs i j p q Hi Hj Hne Hp Hq.
  apply reachable_ok in Hs as (_ & _ & Hu). unfold routes_unique in Hu.
  destruct (decide (i < j)) as [Hlt|Hge].
  - eapply (distinct_by_lookup route_destination _ i j); eauto;
      by rewrite lookup_take_lt.
  - rewrite memcmp6_sym.
    eapply (distinct_by_lookup route_destination _ j i); eauto; [lia | |];
      by rewrite lookup_take_lt.
Qed.

Lemma met_two_reachable : reachable met_two.
Proof.
  eapply reach_step; [apply met_B_reachable|].
  eapply (step_recv 2 stale_stack hello2_buf met_B). vm_compute. reflexivity.
Qed.

Lemma peer_addresses_unique_witness :
  map peer_mac (live_peers met_two) = [addr_B; neighbour 2] /\
  forall p q,
    peers met_two !! 0 = Some p -> peers met_two !! 1 = Some q ->
    memcmp6 (peer_mac p) (peer_mac q) = false.
Proof.
  split; [vm_compute; reflexivity|].
  intros p q.
  apply (peer_addresses_unique met_two met_two_reachable 0 1 p q).
  - vm_compute. lia.
  - vm_compute. lia.
  - discriminate.
Defined.

Lemma route_destinations_unique_witness :
  map route_destination (take (routeCount met_two) (routingTable met_two))
    = [addr_B; neighbour 2] /\
  forall p q,
    routingTable met_two !! 0 = Some p -> routingTable met_two !! 1 = Some q ->
    memcmp6 (route_destination p) (route_destination q) = false.
Proof.
  split; [vm_compute; reflexivity|].
  intros p q.
  apply (route_destinations_unique met_two met_two_reachable 0 1 p q).
  - vm_compute. lia.
  - vm_compute. lia.
  - discriminate.
Defined.

(** ** Lookup *)

(** The search loop finds the lowest index that passes the test. *)
Lemma find_from_iff {A} (test : A -> bool) (l : list A) n k :
  n <= length l ->
  (find_from test l n 0 = Some k <->
   k < n /\ (exists x, l !! k = Some x /\ test x = true) /\
   forall j y, j < k -> l !! j = Some y -> test y = false).
Proof.
  intros Hn. split.
  - intros H. destruct (find_from_Some test l n 0 k H) as [Hk Hx].
    split; [lia|]. split; [exact Hx|].
    intros j y Hj Hy. eapply (find_from_first test l n 0 k H j y); [lia | done].
  - intros (Hk & (x & Hx & Ht) & Hfirst).
    destruct (find_from_hit test l n 0 k x) as [k' Hk']; [lia | done | done | |].
    { intros j Hj. apply lookup_lt_is_Some_2. lia. }
    rewrite Hk'. f_equal.
    destruct (find_from_Some test l n 0 k' Hk') as [Hk'n (x' & Hx' & Ht')].
    destruct (Nat.lt_trichotomy k' k) as [Hlt | [Heq | Hgt]]; [|done|].
    + rewrite (Hfirst k' x' Hlt Hx') in Ht'. discriminate.
    + pose proof (find_from_first test l n 0 k' Hk' k x ltac:(lia) Hx).
      congruence.
Qed.

(** X8. [findPeer] and [findRoute] return the lowest index in use whose
    address matches, and [-1] / nullptr exactly when no entry in use
    matches; slots at or beyond the counter are never looked at. *)
Theorem lookup_first_match s :
  peerCount s <= length (peers s) ->
  routeCount s <= length (routingTable s) ->
  (forall mac k,
     findPeer mac s = Some k <->
     k < peerCount s /\
     (exists p, peers s !! k = Some p /\ memcmp6 (peer_mac p) mac = true) /\
     forall j q, j < k -> peers s !! j = Some q ->
                 memcmp6 (peer_mac q) mac = false) /\
  (forall mac,
     findPeer mac s = None <->
     forall j q, j < peerCount s -> peers s !! j = Some q ->
                 memcmp6 (peer_mac q) mac = false) /\
  (forall d k,
     findRoute d s = Some k <->
     k < routeCount s /\
     (exists r, routingTable s !! k = Some r /\
                memcmp6 (route_destination r) d = true) /\
     forall j q, j < k -> routingTable s !! j = Some q ->
                 memcmp6 (route_destination q) d = false) /\
  (forall d,
     findRoute d s = None <->
     forall j q, j < routeCount s -> routingTable s !! j = Some q ->
                 memcmp6 (route_destination q) d = false).
Proof.
  intros Hp Hr.
  assert (Hnone : forall {A} (test : A -> bool) (l : list A) n,
            n <= length l ->
            (find_from test l n 0 = None <->
             forall j y, j < n -> l !! j = Some y -> test y = false)).
  { intros A test l n Hn. split.
    - intros H j y Hj Hy.
      apply (find_from_None test l n 0 ltac:(lia) H j y ltac:(lia) Hy).
    - intros Hall. destruct (find_from test l n 0) as [k|] eqn:E; [|done].
      destruct (find_from_Some test l n 0 k E) as [Hk (x & Hx & Ht)].
      rewrite (Hall k x ltac:(lia) Hx) in Ht. discriminate. }
  split; [|split; [|split]].
  - intros mac k. by apply find_from_iff.
  - intros mac. by apply Hnone.
  - intros d k. by apply find_from_iff.
  - intros d. by apply Hnone.
Qed.

Lemma lookup_first_match_witness :
  findPeer (neighbour 2) met_two = Some 1 /\
  (findPeer addr_D met_two = None <->
   forall j q, j < peerCount met_two -> peers met_two !! j = Some q ->
               memcmp6 (peer_mac q) addr_D = false).
Proof.
  destruct (lookup_first_match met_two) as (Hsome & Hnone & _).
  - vm_compute. lia.
  - vm_compute. lia.
  - split; [|apply Hnone].
    apply Hsome. split; [vm_compute; lia|]. split.
    + exists (mkPeer (neighbour 2) (-50) 2 3 false true).
      split; vm_compute; reflexivity.
    + intros j q Hj Hq. destruct j as [|j]; [|lia].
      assert (Hl : peers met_two !! 0 = Some (mkPeer addr_B (-50) 1 0 false true))
        by (vm_compute; reflexivity).
      rewrite Hl in Hq. inversion Hq; subst. vm_compute. reflexivity.
Defined.

(** ** Hearing a node makes it a findable, fresh peer *)

Lemma findPeer_after_refresh mac s i p p1 :
  findPeer mac s = Some i -> peers s !! i = Some p ->
  peer_mac p1 = peer_mac p ->
  findPeer mac (set_peers (<[i := p1]> (peers s)) (peerCount s) s) = Some i.
Proof.
  intros Hf Hp Hmac. unfold findPeer in *. simpl.
  rewrite (find_from_ext _ _ (peers s)); [exact Hf|].
  intros j _. destruct (decide (j = i)) as [->|Hne].
  - rewrite list_lookup_insert_eq by (by eapply lookup_lt_Some).
    rewrite Hp. simpl. by rewrite Hmac.
  - by rewrite list_lookup_insert_ne.
Qed.

Lemma findPeer_after_append mac s p1 :
  findPeer mac s = None -> peerCount s < length (peers s) ->
  memcmp6 (peer_mac p1) mac = true ->
  findPeer mac (set_peers (<[peerCount s := p1]> (peers s)) (S (peerCount s)) s)
    = Some (peerCount s).
Proof.
  intros Hf Hlen Hmac. unfold findPeer in *.
  unfold set_peers. cbn [peers peerCount].
  rewrite find_from_snoc.
  rewrite (find_from_ext _ _ (peers s)).
  - rewrite Hf. simpl. rewrite list_lookup_insert_eq by exact Hlen.
    by rewrite Hmac.
  - intros j Hj. by rewrite list_lookup_insert_ne by lia.
Qed.

(** X9. After a frame from another node has been processed at time
    [now], [findPeer] returns an entry for its source whose [lastSeen]
    is [now] and whose [hopCount] is the frame's, provided the source
    was already a peer or the peer table had a free slot. *)
Theorem heard_then_found now msg s :
  wf s ->
  memcmp6 (msg_srcMac msg) (myMac s) = false ->
  is_Some (findPeer (msg_srcMac msg) s) \/ peerCount s < MAX_PEERS ->
  exists i p,
    findPeer (msg_srcMac msg) (fst (processMessage now msg s)) = Some i /\
    peers (fst (processMessage now msg s)) !! i = Some p /\
    memcmp6 (peer_mac p) (msg_srcMac msg) = true /\
    peer_lastSeen p = now /\
    peer_hopCount p = msg_hopCount msg.
Proof.
  intros (Hp & _ & Hpc & _) Hother Hroom.
  unfold processMessage. rewrite Hother.
  destruct (dispatch_peers now msg (update_peer_info now msg s)) as [H1 H2].
  unfold findPeer. rewrite H1, H2.
  fold (findPeer (msg_srcMac msg) (update_peer_info now msg s)).
  destruct (findPeer (msg_srcMac msg) s) as [i|] eqn:Hf.
  - destruct (findPeer_Some _ _ _ Hf) as (Hi & p & Hpi & Hmac).
    rewrite (update_peer_info_known now msg s i p Hf Hpi).
    exists i, (refresh_peer now (msg_hopCount msg) p).
    split; [by apply (findPeer_after_refresh _ s i p)|].
    split; [simpl; apply list_lookup_insert_eq; lia|]. by repeat split.
  - destruct Hroom as [[i Hi] | Hroom]; [discriminate|].
    unfold update_peer_info. rewrite Hf.
    destruct (addPeer_cases now (msg_srcMac msg) (-50) (msg_hopCount msg)
                (data_at msg 0 =? 1)%Z s)
      as [(_ & ->) | [(Hge & _) | (Hge & _)]]; [|lia|lia].
    simpl. eexists _, _.
    split; [apply findPeer_after_append; [exact Hf | lia |]|].
    + simpl. rewrite memcmp6_memcpy6_l. apply memcmp6_refl.
    + split; [simpl; apply list_lookup_insert_eq; lia|].
      simpl. rewrite memcmp6_memcpy6_l. by repeat split; try apply memcmp6_refl.
Qed.

Lemma heard_then_found_witness :
  exists i p,
    findPeer (msg_srcMac hello_B_gateway)
             (fst (processMessage 9 hello_B_gateway met_B)) = Some i /\
    peers (fst (processMessage 9 hello_B_gateway met_B)) !! i = Some p /\
    memcmp6 (peer_mac p) (msg_srcMac hello_B_gateway) = true /\
    peer_lastSeen p = 9%Z /\
    peer_hopCount p = msg_hopCount hello_B_gateway.
Proof.
  apply (heard_then_found 9 hello_B_gateway met_B).
  - apply (reachable_tables met_B met_B_reachable).
  - vm_compute. reflexivity.
  - left. vm_compute. eauto.
Defined.

(** ** Eviction and lookup *)

Lemma find_from_in_list {A} (test : A -> bool) (l1 l2 rest : list A) x :
  Forall (fun y => test y = false) l1 -> test x = true ->
  find_from test (l1 ++ x :: l2 ++ rest) (length (l1 ++ x :: l2)) 0
    = Some (length l1).
Proof.
  intros Hl1 Hx. apply find_from_iff.
  - rewrite !length_app. simpl. rewrite length_app. lia.
  - split; [rewrite length_app; simpl; lia|]. split.
    + exists x. split; [|done].
      rewrite lookup_app_r by lia. by rewrite Nat.sub_diag.
    + intros j y Hj Hy. rewrite lookup_app_l in Hy by lia.
      rewrite Forall_forall in Hl1. apply Hl1.
      apply list_elem_of_lookup. eauto.
Qed.

(** X10. Eviction keeps what [findPeer] finds: if the entry found for
    an address is younger than PEER_TIMEOUT at [now], then after
    [removeStalePeers] [findPeer] still finds that very entry, at the
    same or a lower index. *)
Theorem fresh_peer_survives now mac s i p :
  peerCount s <= length (peers s) ->
  findPeer mac s = Some i -> peers s !! i = Some p ->
  (age now p < PEER_TIMEOUT)%Z ->
  exists k,
    k <= i /\
    findPeer mac (removeStalePeers now s) = Some k /\
    peers (removeStalePeers now s) !! k = Some p.
Proof.
  intros Hlen Hf Hp Hage.
  apply find_from_iff in Hf as (Hi & (p' & Hp' & Hmac) & Hfirst); [|exact Hlen].
  rewrite Hp in Hp'. inversion Hp'; subst p'. clear Hp'.
  set (P := fun q => fresh now q = true).
  set (l1 := filter P (take i (peers s))).
  set (l2 := filter P (take (peerCount s - S i) (drop (S i) (peers s)))).
  assert (Hsplit : live_peers s
            = take i (peers s) ++ p :: take (peerCount s - S i) (drop (S i) (peers s))).
  { unfold live_peers.
    rewrite <- (take_drop_middle (peers s) i p Hp) at 1.
    rewrite take_app, length_take_le by lia.
    rewrite (take_ge (take i (peers s))) by (rewrite length_take; lia).
    replace (peerCount s - i) with (S (peerCount s - S i)) by lia.
    reflexivity. }
  assert (Hlive : live_peers (removeStalePeers now s) = l1 ++ p :: l2).
  { rewrite removeStalePeers_live by exact Hlen. rewrite Hsplit.
    rewrite filter_app, filter_cons_True by (by apply fresh_iff). reflexivity. }
  assert (Hcount : peerCount (removeStalePeers now s) = length (l1 ++ p :: l2)).
  { rewrite <- Hlive. unfold live_peers. rewrite length_take.
    pose proof (removeStalePeers_count now s).
    pose proof (removeStalePeers_length now s Hlen). lia. }
  assert (Hpeers : peers (removeStalePeers now s)
            = l1 ++ p :: l2 ++ drop (peerCount (removeStalePeers now s))
                                    (peers (removeStalePeers now s))).
  { rewrite <- (take_drop (peerCount (removeStalePeers now s))
                          (peers (removeStalePeers now s))) at 1.
    fold (live_peers (removeStalePeers now s)). rewrite Hlive.
    by rewrite <- app_assoc. }
  exists (length l1). split; [|split].
  - subst l1. etransitivity; [apply length_filter|].
    rewrite length_take. lia.
  - unfold findPeer. rewrite Hcount, Hpeers.
    apply find_from_in_list; [|exact Hmac].
    apply Forall_forall. intros q Hq. subst l1.
    apply list_elem_of_filter in Hq as [_ Hq].
    apply elem_of_take in Hq as (j & Hj & Hlt). by apply (Hfirst j q).
  - rewrite Hpeers. rewrite lookup_app_r by lia. by rewrite Nat.sub_diag.
Qed.

Lemma fresh_peer_survives_witness :
  findPeer (neighbour 2) three_peers = Some 1 /\
  exists k,
    k <= 1 /\
    findPeer (neighbour 2) (removeStalePeers 130000 three_peers) = Some k /\
    peers (removeStalePeers 130000 three_peers) !! k
      = Some (mkPeer (neighbour 2) (-50) 50000 3 false true).
Proof.
  split; [vm_compute; reflexivity|].
  apply (fresh_peer_survives 130000 (neighbour 2) three_peers 1).
  - vm_compute. lia.
  - vm_compute. reflexivity.
  - vm_compute. reflexivity.
  - vm_compute. reflexivity.
Defined.

(** ** Routes are kept and only get shorter *)

Lemma route_of_same d s s1 :
  routingTable s1 = routingTable s -> routeCount s1 = routeCount s ->
  route_of d s1 = route_of d s.
Proof. intros H1 H2. unfold route_of, findRoute. by rewrite H1, H2. Qed.

Lemma updateRoute_keeps now d1 nh h d s e :
  routeCount s <= length (routingTable s) ->
  route_of d s = Some e ->
  exists e1,
    route_of d (updateRoute now d1 nh h s) = Some e1 /\
    route_destination e1 = route_destination e /\
    (route_hopCount e1 <= route_hopCount e)%Z.
Proof.
  intros Hlen Hr. destruct (route_of_Some _ _ _ Hr) as (j & Hj & Hej).
  destruct (findRoute_Some _ _ _ Hj) as (Hjn & _).
  destruct (findRoute d1 s) as [i|] eqn:Hf.
  - destruct (findRoute_Some _ _ _ Hf) as (Hi & e' & He' & _).
    rewrite (updateRoute_existing now d1 nh h s i e' Hf He').
    assert (Hfind : findRoute d
              (set_routes (<[i := improved now nh h e']> (routingTable s))
                          (routeCount s) s) = Some j).
    { unfold findRoute in *. simpl.
      rewrite (find_from_ext _ _ (routingTable s)); [exact Hj|].
      intros k _. destruct (decide (k = i)) as [->|Hne].
      - rewrite list_lookup_insert_eq by (by eapply lookup_lt_Some).
        by rewrite He'.
      - by rewrite list_lookup_insert_ne. }
    unfold route_of. rewrite Hfind. simpl.
    destruct (decide (j = i)) as [->|Hne].
    + rewrite list_lookup_insert_eq by (by eapply lookup_lt_Some).
      rewrite He' in Hej. inversion Hej; subst e'.
      eexists. split; [reflexivity|]. unfold improved. simpl.
      split; [done|].
      destruct (h <? route_hopCount e)%Z eqn:E; [apply Z.ltb_lt in E|]; lia.
    + rewrite list_lookup_insert_ne by done.
      exists e. split; [done|]. split; [done | lia].
  - destruct (decide (routeCount s < MAX_PEERS)) as [Hlt|Hge].
    + rewrite (updateRoute_new now d1 nh h s Hf Hlt).
      unfold route_of, findRoute, set_routes. cbn [routingTable routeCount].
      rewrite find_from_snoc.
      rewrite (find_from_ext _ _ (routingTable s))
        by (intros k Hk; by rewrite list_lookup_insert_ne by lia).
      fold (findRoute d s). rewrite Hj.
      rewrite list_lookup_insert_ne by lia.
      exists e. split; [done|]. split; [done | lia].
    + rewrite updateRoute_full by (done || lia).
      exists e. split; [done|]. split; [done | lia].
Qed.

Lemma processMessage_keeps_routes now msg s d e :
  wf s -> route_of d s = Some e ->
  exists e1,
    route_of d (fst (processMessage now msg s)) = Some e1 /\
    route_destination e1 = route_destination e /\
    (route_hopCount e1 <= route_hopCount e)%Z.
Proof.
  intros Hwf Hr. unfold processMessage.
  destruct (memcmp6 _ _); [exists e; split; [done|]; split; [done | lia]|].
  destruct (update_peer_info_other now msg s) as (_ & H1 & H2 & _).
  pose proof (update_peer_info_wf now msg s Hwf) as Hwf1.
  set (s1 := update_peer_info now msg s) in *.
  assert (Hr1 : route_of d s1 = Some e) by (by rewrite (route_of_same d s s1)).
  destruct (dispatch_shape now msg s1) as [[H3 H4] | (d1 & nh & h & s0 & Hsame & ->)].
  - exists e. rewrite (route_of_same d s1 _ H3 H4).
    split; [done|]. split; [done | lia].
  - pose proof (same_tables_wf s1 s0 Hsame Hwf1) as (_ & Hlen0 & _ & Hrc0).
    destruct Hsame as (_ & _ & H5 & H6).
    apply updateRoute_keeps; [lia|]. by rewrite (route_of_same d s1 s0).
Qed.

Lemma meshLoop_routes now s :
  routingTable (fst (meshLoop now s)) = routingTable s /\
  routeCount (fst (meshLoop now s)) = routeCount s.
Proof.
  unfold meshLoop. destruct (_ <? _)%Z; [|done]. simpl.
  match goal with
  | |- context [removeStalePeers ?t ?x] =>
      destruct (removeStalePeers_other t x) as (_ & -> & -> & _)
  end.
  done.
Qed.

(** X11. No step of the engine removes a route or makes it longer: a
    destination that has a routing entry before any call into the
    engine still has one afterwards, for the same destination bytes and
    with a hop count that is less than or equal to the old one. *)
Theorem routes_only_improve s out s1 d e :
  reachable s -> step s out s1 ->
  route_of d s = Some e ->
  exists e1,
    route_of d s1 = Some e1 /\
    route_destination e1 = route_destination e /\
    (route_hopCount e1 <= route_hopCount e)%Z.
Proof.
  intros Hs Hstep Hr. apply reachable_tables in Hs as [Hwf _].
  assert (Hsame : forall s2, same_tables s s2 ->
            exists e1, route_of d s2 = Some e1 /\
                       route_destination e1 = route_destination e /\
                       (route_hopCount e1 <= route_hopCount e)%Z).
  { intros s2 (_ & _ & H1 & H2). exists e.
    rewrite (route_of_same d s s2 H1 H2). split; [done|]. split; [done | lia]. }
  destruct Hstep.
  - apply Hsame, initMesh_tables.
  - unfold onDataRecv in H.
    destruct (_ <? _); [discriminate|].
    destruct (_ <? _); [discriminate|].
    pose proof (processMessage_keeps_routes now
                  (msg_of_bytes (memcpy_into uninit buf)) s d e Hwf Hr) as Hk.
    destruct (processMessage _ _ _) as [s2 out2]. inversion H; subst. exact Hk.
  - destruct (meshLoop_routes now s) as [H1 H2].
    exists e. rewrite (route_of_same d s _ H1 H2).
    split; [done|]. split; [done | lia].
  - apply Hsame, sendData_tables.
  - apply Hsame, sendDiscovery_tables.
  - apply Hsame. by repeat split.
  - apply Hsame. by repeat split.
Qed.

Lemma routes_only_improve_witness :
  route_of addr_B met_B = Some (mkRoute addr_B addr_B 1 1) /\
  exists e1,
    route_of addr_B met_two = Some e1 /\
    route_destination e1 = addr_B /\
    (route_hopCount e1 <= 1)%Z.
Proof.
  split; [vm_compute; reflexivity|].
  apply (routes_only_improve met_B
           (snd (processMessage 2
                   (msg_of_bytes (memcpy_into stale_stack hello2_buf)) met_B))
           met_two addr_B (mkRoute addr_B addr_B 1 1) met_B_reachable).
  - apply (step_recv 2 stale_stack hello2_buf met_B). vm_compute. reflexivity.
  - vm_compute. reflexivity.
Defined.

(** ** Effects of one received frame *)

Lemma updateRoute_other now d nh h s :
  myMac (updateRoute now d nh h s) = myMac s /\
  sequenceNumber (updateRoute now d nh h s) = sequenceNumber s /\
  isGateway (updateRoute now d nh h s) = isGateway s /\
  lastHeartbeat (updateRoute now d nh h s) = lastHeartbeat s /\
  onDataReceived (updateRoute now d nh h s) = onDataReceived s.
Proof.
  unfold updateRoute.
  destruct (findRoute d s) as [i|].
  - by destruct (routingTable s !! i).
  - by destruct (routeCount s <? MAX_PEERS).
Qed.

Lemma dispatch_effects now msg s :
  let r := dispatch now msg s in
  (snd r = [] /\ sequenceNumber (fst r) = sequenceNumber s) \/
  (exists a d l, snd r = [Deliver a d l] /\
                 sequenceNumber (fst r) = sequenceNumber s) \/
  (exists e, snd r = [e] /\ frame_of e = Some (bump_hop msg) /\
             sequenceNumber (fst r) = sequenceNumber s) \/
  (exists e m, snd r = [e] /\ frame_of e = Some m /\
               msg_srcMac m = memcpy6 (myMac s) /\
               msg_sequenceNum m = sequenceNumber s /\
               sequenceNumber (fst r) = u16 (sequenceNumber s + 1)).
Proof.
  unfold dispatch.
  destruct (msg_type msg =? MSG_DISCOVERY)%Z.
  { unfold handleDiscovery.
    destruct (msg_hopCount msg <? 3)%Z; simpl.
    - right. right. right. eexists _, _. split; [reflexivity|].
      split; [reflexivity|]. split; [reflexivity|]. split; [reflexivity|].
      match goal with
      | |- context [updateRoute ?t ?d ?nh ?h ?x] =>
          destruct (updateRoute_other t d nh h x) as (_ & -> & _)
      end. reflexivity.
    - left. split; [reflexivity|].
      by destruct (updateRoute_other now (msg_srcMac msg) (msg_srcMac msg) 1 s)
        as (_ & -> & _). }
  destruct (msg_type msg =? MSG_HEARTBEAT)%Z; [by left|].
  destruct (msg_type msg =? MSG_DATA)%Z.
  { unfold handleData.
    destruct (memcmp6 _ _).
    { simpl. destruct (onDataReceived s); [|by left].
      right. left. by eexists _, _, _. }
    destruct (_ <? _)%Z; [|by left].
    destruct (findRoute _ s) as [i|].
    - destruct (routingTable s !! i); [|by left].
      right. right. left. by eexists.
    - right. right. left. by eexists. }
  destruct (msg_type msg =? MSG_ROUTE_REQUEST)%Z.
  { unfold handleRouteRequest.
    destruct (_ || _).
    - right. right. right. simpl. by eexists _, _.
    - destruct (_ <? _)%Z; [|by left].
      right. right. left. by eexists. }
  destruct (msg_type msg =? MSG_ROUTE_REPLY)%Z; [|by left].
  left. split; [reflexivity|]. simpl. unfold handleRouteReply.
  match goal with
  | |- context [updateRoute ?t ?d ?nh ?h ?x] =>
      by destruct (updateRoute_other t d nh h x) as (_ & -> & _)
  end.
Qed.

(** X12. Processing one received frame has exactly one of four
    outcomes: nothing leaves the node; one payload is delivered; one
    copy of the frame is forwarded with the hop count incremented and
    every other field as received; or one frame originated by this node
    is sent, carrying its own address and the current sequence number.
    The sequence counter advances (by one, modulo 65536) in the last
    case only. *)
Theorem one_outcome_per_frame now msg s :
  let r := processMessage now msg s in
  (snd r = [] /\ sequenceNumber (fst r) = sequenceNumber s) \/
  (exists a d l, snd r = [Deliver a d l] /\
                 sequenceNumber (fst r) = sequenceNumber s) \/
  (exists e, snd r = [e] /\ frame_of e = Some (bump_hop msg) /\
             sequenceNumber (fst r) = sequenceNumber s) \/
  (exists e m, snd r = [e] /\ frame_of e = Some m /\
               msg_srcMac m = memcpy6 (myMac s) /\
               msg_sequenceNum m = sequenceNumber s /\
               sequenceNumber (fst r) = u16 (sequenceNumber s + 1)).
Proof.
  unfold processMessage.
  destruct (memcmp6 _ _); [by left|].
  destruct (update_peer_info_other now msg s) as (H1 & _ & _ & H2 & _).
  pose proof (dispatch_effects now msg (update_peer_info now msg s)) as H.
  simpl in H. rewrite H1, H2 in H. exact H.
Qed.

(** ** The node is never its own peer *)

Lemma update_peer_info_no_self now msg s :
  wf s -> memcmp6 (msg_srcMac msg) (myMac s) = false ->
  no_self_peer s -> no_self_peer (update_peer_info now msg s).
Proof.
  intros Hwf Hother Hno. unfold no_self_peer in *.
  destruct (update_peer_info_other now msg s) as (-> & _).
  unfold update_peer_info.
  destruct (findPeer (msg_srcMac msg) s) as [i|] eqn:Hf.
  - destruct (findPeer_Some _ _ _ Hf) as (Hi & p & Hp & _). rewrite Hp.
    apply Forall_forall. intros q Hq. unfold live_peers in Hq. simpl in Hq.
    rewrite Forall_forall in Hno.
    apply elem_of_take in Hq as (j & Hj & Hlt).
    destruct (decide (j = i)) as [->|Hne].
    + rewrite list_lookup_insert_eq in Hj by (by eapply lookup_lt_Some).
      inversion Hj; subst. simpl. apply Hno. apply elem_of_take. eauto.
    + rewrite list_lookup_insert_ne in Hj by done.
      apply Hno. apply elem_of_take. eauto.
  - pose proof (removeStalePeers_wf now s Hwf) as Hwf1.
    assert (Hno1 : Forall (fun p => memcmp6 (peer_mac p) (myMac s) = false)
                          (live_peers (removeStalePeers now s))).
    { destruct Hwf as (Hp & _ & Hpc & _).
      rewrite removeStalePeers_live by lia.
      apply Forall_forall. intros p Hin.
      apply list_elem_of_filter in Hin as [_ Hin].
      rewrite Forall_forall in Hno. by apply Hno. }
    destruct (addPeer_cases now (msg_srcMac msg) (-50) (msg_hopCount msg)
                (data_at msg 0 =? 1)%Z s)
      as [(Hlt & ->) | [(Hge & Hlt & ->) | (Hge & Hge1 & ->)]]; simpl.
    + unfold live_peers. simpl. destruct Hwf as (Hp & _).
      rewrite insert_next_live by lia. apply Forall_app. split; [exact Hno|].
      apply Forall_singleton. simpl. by rewrite memcmp6_memcpy6_l.
    + unfold live_peers. simpl. destruct Hwf1 as (Hp & _).
      rewrite insert_next_live by lia. apply Forall_app. split; [exact Hno1|].
      apply Forall_singleton. simpl. by rewrite memcmp6_memcpy6_l.
    + exact Hno1.
Qed.

Lemma dispatch_myMac now msg s : myMac (fst (dispatch now msg s)) = myMac s.
Proof.
  unfold dispatch.
  destruct (msg_type msg =? MSG_DISCOVERY)%Z.
  { unfold handleDiscovery. destruct (msg_hopCount msg <? 3)%Z; simpl;
      match goal with
      | |- context [updateRoute ?t ?d ?nh ?h ?x] =>
          by destruct (updateRoute_other t d nh h x) as (-> & _)
      end. }
  destruct (msg_type msg =? MSG_HEARTBEAT)%Z; [done|].
  destruct (msg_type msg =? MSG_DATA)%Z.
  { unfold handleData. destruct (memcmp6 _ _); [done|].
    destruct (msg_hopCount msg <? 5)%Z; [|done].
    destruct (findRoute _ s) as [i|]; [|done].
    by destruct (routingTable s !! i). }
  destruct (msg_type msg =? MSG_ROUTE_REQUEST)%Z.
  { unfold handleRouteRequest. destruct (_ || _); [done|].
    by destruct (msg_hopCount msg <? 5)%Z. }
  destruct (msg_type msg =? MSG_ROUTE_REPLY)%Z; [|done].
  simpl. unfold handleRouteReply.
  match goal with
  | |- context [updateRoute ?t ?d ?nh ?h ?x] =>
      by destruct (updateRoute_other t d nh h x) as (-> & _)
  end.
Qed.

Lemma processMessage_no_self now msg s :
  wf s -> no_self_peer s -> no_self_peer (fst (processMessage now msg s)).
Proof.
  intros Hwf Hno. unfold processMessage.
  destruct (memcmp6 _ _) eqn:Hother; [done|].
  pose proof (update_peer_info_no_self now msg s Hwf Hother Hno) as H.
  set (s1 := update_peer_info now msg s) in *.
  destruct (dispatch_peers now msg s1) as [H1 H2].
  pose proof (dispatch_myMac now msg s1) as Hmac.
  unfold no_self_peer, live_peers in *. by rewrite Hmac, H1, H2.
Qed.

(** X13. The node never lists itself: if no peer entry in use holds
    the node's own address, then after any call into the engine that
    leaves the own address as it was, still none does. *)
Theorem never_own_peer s out s1 :
  reachable s -> step s out s1 -> myMac s1 = myMac s ->
  no_self_peer s -> no_self_peer s1.
Proof.
  intros Hs Hstep Hmac Hno. apply reachable_tables in Hs as [Hwf _].
  assert (Hsame : same_tables s s1 -> no_self_peer s1).
  { intros (H1 & H2 & _). unfold no_self_peer, live_peers in *.
    by rewrite Hmac, H1, H2. }
  destruct Hstep.
  - apply Hsame, initMesh_tables.
  - unfold onDataRecv in H.
    destruct (_ <? _); [discriminate|].
    destruct (_ <? _); [discriminate|].
    pose proof (processMessage_no_self now
                  (msg_of_bytes (memcpy_into uninit buf)) s Hwf Hno) as Hk.
    destruct (processMessage _ _ _) as [s2 out2]. inversion H; subst. exact Hk.
  - clear Hsame. unfold meshLoop in *. destruct (_ <? _)%Z; [|done].
    simpl in *. unfold no_self_peer in *. rewrite Hmac.
    destruct Hwf as (Hp & _ & Hpc & _).
    rewrite removeStalePeers_live by (simpl; lia).
    apply Forall_forall. intros p Hin.
    apply list_elem_of_filter in Hin as [_ Hin].
    rewrite Forall_forall in Hno. by apply Hno.
  - apply Hsame, sendData_tables.
  - apply Hsame, sendDiscovery_tables.
  - apply Hsame. by repeat split.
  - apply Hsame. by repeat split.
Qed.

Lemma never_own_peer_witness : no_self_peer met_two.
Proof.
  apply (never_own_peer met_B
           (snd (processMessage 2
                   (msg_of_bytes (memcpy_into stale_stack hello2_buf)) met_B))
           met_two met_B_reachable).
  - apply (step_recv 2 stale_stack hello2_buf met_B). vm_compute. reflexivity.
  - vm_compute. reflexivity.
  - unfold no_self_peer.
    assert (H : forallb (fun p => negb (memcmp6 (peer_mac p) (myMac met_B)))
                        (live_peers met_B) = true) by (vm_compute; reflexivity).
    rewrite forallb_forall in H. apply Forall_forall. intros p Hp.
    apply negb_true_iff. apply H.
    exact (proj1 (list_elem_of_In (live_peers met_B) p) Hp).
Defined.

(** ** After a heartbeat *)

(** X14. When [meshLoop] fires at time [t], every peer left in the
    table is younger than PEER_TIMEOUT at [t], and [meshLoop] then does
    nothing at any time [t1] whose 32-bit distance [t1 - t] is at most
    HEARTBEAT_INTERVAL. *)
Theorem after_heartbeat t s :
  peerCount s <= length (peers s) ->
  (HEARTBEAT_INTERVAL < u32 (t - lastHeartbeat s))%Z ->
  Forall (fun p => (age t p < PEER_TIMEOUT)%Z) (live_peers (fst (meshLoop t s))) /\
  forall t1,
    (u32 (t1 - t) <= HEARTBEAT_INTERVAL)%Z ->
    meshLoop t1 (fst (meshLoop t s)) = (fst (meshLoop t s), []).
Proof.
  intros Hlen Hfire. apply Z.ltb_lt in Hfire.
  assert (Heq : fst (meshLoop t s)
                = removeStalePeers t (set_lastHeartbeat t (fst (sendHeartbeat s)))).
  { unfold meshLoop. by rewrite Hfire. }
  rewrite Heq. split.
  - rewrite removeStalePeers_live by (simpl; lia).
    apply Forall_forall. intros p Hp.
    apply list_elem_of_filter in Hp as [Hp _]. by apply fresh_iff.
  - intros t1 Ht1. unfold meshLoop.
    destruct (removeStalePeers_other t (set_lastHeartbeat t (fst (sendHeartbeat s))))
      as (_ & _ & _ & _ & _ & -> & _).
    cbn [lastHeartbeat set_lastHeartbeat].
    destruct (HEARTBEAT_INTERVAL <? u32 (t1 - t))%Z eqn:E; [|done].
    apply Z.ltb_lt in E. lia.
Qed.

Lemma after_heartbeat_witness :
  map peer_lastSeen (live_peers (fst (meshLoop 130000 three_peers)))
    = [50000; 100000]%Z /\
  Forall (fun p => (age 130000 p < PEER_TIMEOUT)%Z)
         (live_peers (fst (meshLoop 130000 three_peers))) /\
  meshLoop 160000 (fst (meshLoop 130000 three_peers))
    = (fst (meshLoop 130000 three_peers), []).
Proof.
  split; [vm_compute; reflexivity|].
  destruct (after_heartbeat 130000 three_peers) as [H1 H2].
  - vm_compute. lia.
  - vm_compute. reflexivity.
  - split; [exact H1|]. apply H2. vm_compute. discriminate.
Defined.

(** X15. Eviction is idempotent: a second [removeStalePeers] at the
    same time changes nothing, neither the entries in use nor the
    slots behind them. *)
Theorem evict_twice now s :
  peerCount s <= length (peers s) ->
  removeStalePeers now (removeStalePeers now s) = removeStalePeers now s.
Proof.
  intros Hlen. apply removeStalePeers_all_fresh.
  - pose proof (removeStalePeers_count now s).
    pose proof (removeStalePeers_length now s Hlen). lia.
  - intros p Hp. rewrite removeStalePeers_live in Hp by exact Hlen.
    by apply list_elem_of_filter in Hp as [Hp _].
Qed.

Lemma evict_twice_witness :
  peerCount three_peers = 3 /\
  peerCount (removeStalePeers 130000 three_peers) = 2 /\
  removeStalePeers 130000 (removeStalePeers 130000 three_peers)
    = removeStalePeers 130000 three_peers.
Proof.
  split; [vm_compute; reflexivity|]. split; [vm_compute; reflexivity|].
  apply (evict_twice 130000 three_peers). vm_compute. lia.
Defined.

(** ** Route request, reply and installation *)

Lemma find_from_test_ext {A} (t1 t2 : A -> bool) (l : list A) n : forall i,
  (forall x, t1 x = t2 x) -> find_from t1 l n i = find_from t2 l n i.
Proof.
  induction n as [|n IH]; intros i H; simpl; [done|].
  destruct (l !! i) as [x|]; [|done]. rewrite H, (IH (S i) H). done.
Qed.

Lemma route_of_ext d1 d2 s :
  memcpy6 d1 = memcpy6 d2 -> route_of d1 s = route_of d2 s.
Proof.
  intros H. unfold route_of, findRoute.
  rewrite (find_from_test_ext _ (fun r => memcmp6 (route_destination r) d2)).
  - done.
  - intros r. rewrite <- (memcmp6_memcpy6_r _ d1), <- (memcmp6_memcpy6_r _ d2).
    by rewrite H.
Qed.





(** ** Discovery between two nodes *)

Lemma findPeer_ext m1 m2 s :
  memcpy6 m1 = memcpy6 m2 -> findPeer m1 s = findPeer m2 s.
Proof.
  intros H. unfold findPeer.
  apply find_from_test_ext. intros p.
  rewrite <- (memcmp6_memcpy6_r _ m1), <- (memcmp6_memcpy6_r _ m2).
  by rewrite H.
Qed.

Lemma gateway_flag_test b : (gateway_flag b =? 1)%Z = b.
Proof. by destruct b. Qed.

(** X17. Discovery between two nodes.  When node [b] receives the
    bytes of node [a]'s DISCOVERY broadcast, [a] being unknown to it
    and both its tables having a free slot, [b] enters [a] as a peer
    with hop count 0, [lastSeen = now] and [a]'s gateway flag, stores
    the direct route (a via a, 1 hop), and answers with one DISCOVERY
    unicast to [a] that carries hop count 1 and [b]'s own gateway
    flag. *)
Theorem discovery_handshake tb uninit sa sb :
  memcmp6 (myMac sa) (myMac sb) = false ->
  wf sb ->
  findPeer (myMac sa) sb = None -> peerCount sb < MAX_PEERS ->
  route_of (myMac sa) sb = None -> routeCount sb < MAX_PEERS ->
  exists e sb1,
    snd (sendDiscovery sa) = [e] /\
    onDataRecv tb uninit (wire_bytes e) sb
      = Processed sb1
          [Unicast (memcpy6 (myMac sa))
             (mkMsg MSG_DISCOVERY (memcpy6 (myMac sb)) (memcpy6 (myMac sa)) 1
                    (sequenceNumber sb) 1 [gateway_flag (isGateway sb)])
             19] /\
    peerCount sb1 = S (peerCount sb) /\
    peers sb1 !! peerCount sb
      = Some (mkPeer (memcpy6 (myMac sa)) (-50) tb 0 (isGateway sa) true) /\
    route_of (myMac sa) sb1
      = Some (mkRoute (memcpy6 (myMac sa)) (memcpy6 (myMac sa)) 1 tb).
Proof.
  intros Hab Hwf Hnopeer Hroom Hnoroute Hrroom.
  set (hello := mkMsg MSG_DISCOVERY (memcpy6 (myMac sa)) broadcast_addr 0
                      (sequenceNumber sa) 1 [gateway_flag (isGateway sa)]).
  set (got := mkMsg MSG_DISCOVERY (memcpy6 (myMac sa)) broadcast_addr 0
                    (sequenceNumber sa) 1
                    (gateway_flag (isGateway sa) :: drop 19 uninit)).
  assert (Hdec : msg_of_bytes (memcpy_into uninit (wire_bytes (sendBroadcast hello)))
                 = got).
  { unfold wire_bytes, sendBroadcast. rewrite decode_sent.
    - reflexivity.
    - simpl. lia.
    - simpl. lia. }
  set (s1 := set_peers
               (<[peerCount sb := mkPeer (memcpy6 (myMac sa)) (-50) tb 0
                                         (isGateway sa) true]> (peers sb))
               (S (peerCount sb)) sb).
  assert (Hupd : update_peer_info tb got sb = s1).
  { unfold update_peer_info.
    rewrite (findPeer_ext (msg_srcMac got) (myMac sa)) by reflexivity.
    rewrite Hnopeer.
    destruct (addPeer_cases tb (msg_srcMac got) (-50) (msg_hopCount got)
                (data_at got 0 =? 1)%Z sb)
      as [(_ & ->) | [(Hge & _) | (Hge & _)]]; [|lia|lia].
    simpl. unfold s1. unfold data_at. simpl. by rewrite gateway_flag_test. }
  set (s2 := set_sequenceNumber (u16 (sequenceNumber s1 + 1)) s1).
  assert (Hproc : processMessage tb got sb
            = (updateRoute tb (memcpy6 (myMac sa)) (memcpy6 (myMac sa)) 1 s2,
               [Unicast (memcpy6 (myMac sa))
                  (mkMsg MSG_DISCOVERY (memcpy6 (myMac sb)) (memcpy6 (myMac sa)) 1
                         (sequenceNumber sb) 1 [gateway_flag (isGateway sb)])
                  19])).
  { unfold processMessage. cbn [msg_srcMac got].
    rewrite memcmp6_memcpy6_l, Hab. rewrite Hupd. reflexivity. }
  exists (sendBroadcast hello), (fst (processMessage tb got sb)).
  split; [reflexivity|]. split; [|rewrite Hproc; cbn [fst]; split; [|split]].
  - unfold onDataRecv, HEADER_SIZE, MSG_SIZE.
    assert (Hsize : length (wire_bytes (sendBroadcast hello)) = 19) by reflexivity.
    destruct (_ <? 18) eqn:E1; [apply Nat.ltb_lt in E1; lia|].
    destruct (218 <? _) eqn:E2; [apply Nat.ltb_lt in E2; lia|].
    rewrite Hdec, Hproc. reflexivity.
  - by destruct (updateRoute_peers tb (memcpy6 (myMac sa)) (memcpy6 (myMac sa)) 1 s2)
      as [_ ->].
  - destruct (updateRoute_peers tb (memcpy6 (myMac sa)) (memcpy6 (myMac sa)) 1 s2)
      as [-> _].
    simpl. apply list_lookup_insert_eq. destruct Hwf as (Hp & _). lia.
  - rewrite (route_of_ext (myMac sa) (memcpy6 (myMac sa))) by reflexivity.
    rewrite route_of_updateRoute_new.
    + reflexivity.
    + rewrite <- (route_of_ext (myMac sa)) by reflexivity. exact Hnoroute.
    + exact Hrroom.
    + destruct Hwf as (_ & Hr & _). simpl. lia.
Qed.

Lemma discovery_handshake_witness :
  exists e sb1,
    snd (sendDiscovery sender_B) = [e] /\
    onDataRecv 4 stale_stack (wire_bytes e) gateway_node
      = Processed sb1
          [Unicast (memcpy6 (myMac sender_B))
             (mkMsg MSG_DISCOVERY (memcpy6 (myMac gateway_node))
                    (memcpy6 (myMac sender_B)) 1
                    (sequenceNumber gateway_node) 1
                    [gateway_flag (isGateway gateway_node)])
             19] /\
    peerCount sb1 = S (peerCount gateway_node) /\
    peers sb1 !! peerCount gateway_node
      = Some (mkPeer (memcpy6 (myMac sender_B)) (-50) 4 0 (isGateway sender_B) true) /\
    route_of (myMac sender_B) sb1
      = Some (mkRoute (memcpy6 (myMac sender_B)) (memcpy6 (myMac sender_B)) 1 4).
Proof.
  apply (discovery_handshake 4 stale_stack sender_B gateway_node).
  - vm_compute. reflexivity.
  - eapply same_tables_wf; [|apply globals_wf]. by repeat split.
  - vm_compute. reflexivity.
  - vm_compute. lia.
  - vm_compute. reflexivity.
  - vm_compute. lia.
Defined.

(** ** A full peer table with a stale entry *)

Lemma removeStalePeers_count_live now s :
  peerCount s <= length (peers s) ->
  peerCount (removeStalePeers now s)
    = length (filter (fun p => fresh now p = true) (live_peers s)).
Proof.
  intros Hlen. rewrite <- removeStalePeers_live by exact Hlen.
  unfold live_peers. rewrite length_take.
  pose proof (removeStalePeers_count now s).
  pose proof (removeStalePeers_length now s Hlen). lia.
Qed.

(** X18. Overflow policy of the peer table: when the table is full and
    at least one entry in use is PEER_TIMEOUT old or older, [addPeer]
    evicts the stale entries and stores the new peer in the first free
    slot, whose index is the number of entries that were still fresh. *)
Theorem full_table_makes_room now mac rssi h g s :
  wf s -> peerCount s = MAX_PEERS ->
  (exists p, p ∈ live_peers s /\ (PEER_TIMEOUT <= age now p)%Z) ->
  exists idx,
    fst (addPeer now mac rssi h g s) = Some idx /\
    idx = length (filter (fun p => (age now p < PEER_TIMEOUT)%Z) (live_peers s)) /\
    idx < MAX_PEERS /\
    peerCount (snd (addPeer now mac rssi h g s)) = S idx /\
    peers (snd (addPeer now mac rssi h g s)) !! idx
      = Some (mkPeer (memcpy6 mac) rssi now h g true) /\
    take idx (peers (snd (addPeer now mac rssi h g s)))
      = filter (fun p => (age now p < PEER_TIMEOUT)%Z) (live_peers s).
Proof.
  intros Hwf Hfull (p & Hin & Hold).
  pose proof Hwf as (Hp & _ & Hpc & _).
  assert (Hfilter : filter (fun p => fresh now p = true) (live_peers s)
                    = filter (fun p => (age now p < PEER_TIMEOUT)%Z) (live_peers s)).
  { apply list_filter_iff. intros q. apply fresh_iff. }
  assert (Hcount : peerCount (removeStalePeers now s) < MAX_PEERS).
  { rewrite removeStalePeers_count_live by lia.
    assert (Hl : length (live_peers s) = MAX_PEERS).
    { unfold live_peers. rewrite length_take. lia. }
    rewrite <- Hl. apply (length_filter_lt _ _ p Hin).
    intros Hf. apply fresh_iff in Hf. lia. }
  pose proof (removeStalePeers_wf now s Hwf) as (Hp1 & _).
  destruct (addPeer_cases now mac rssi h g s)
    as [(Hlt & _) | [(_ & _ & ->) | (_ & Hge & _)]]; [lia| |lia].
  exists (peerCount (removeStalePeers now s)). simpl.
  split; [done|].
  split; [rewrite <- Hfilter; apply removeStalePeers_count_live; lia|].
  split; [done|]. split; [done|].
  split; [apply list_lookup_insert_eq; lia|].
  rewrite take_insert_ge by lia.
  fold (live_peers (removeStalePeers now s)).
  rewrite removeStalePeers_live by lia. exact Hfilter.
Qed.

Lemma full_table_makes_room_witness :
  peerCount crowded = MAX_PEERS /\
  exists idx,
    fst (addPeer 120001 addr_B (-50) 0 false crowded) = Some idx /\
    idx = length (filter (fun p => (age 120001 p < PEER_TIMEOUT)%Z)
                         (live_peers crowded)) /\
    idx < MAX_PEERS /\
    peerCount (snd (addPeer 120001 addr_B (-50) 0 false crowded)) = S idx /\
    peers (snd (addPeer 120001 addr_B (-50) 0 false crowded)) !! idx
      = Some (mkPeer (memcpy6 addr_B) (-50) 120001 0 false true) /\
    take idx (peers (snd (addPeer 120001 addr_B (-50) 0 false crowded)))
      = filter (fun p => (age 120001 p < PEER_TIMEOUT)%Z) (live_peers crowded).
Proof.
  split; [vm_compute; reflexivity|].
  apply (full_table_makes_room 120001 addr_B (-50) 0 false crowded).
  - unfold wf, bounded. vm_compute. repeat split; lia.
  - vm_compute. reflexivity.
  - exists (mkPeer (neighbour 1) (-50) 1 3 false true). split.
    + apply list_elem_of_lookup. exists 0. vm_compute. reflexivity.
    + vm_compute. discriminate.
Defined.

(** ** The 32-bit clock *)

(** X19. The time comparisons survive the wrap-around of [millis()]:
    if [d] milliseconds (fewer than 2^32) have really passed since the
    stored timestamp, the clock reading being [(stamp + d) mod 2^32],
    then the age the code computes is exactly [d].  So a peer is kept
    by [removeStalePeers] iff [d < PEER_TIMEOUT], and [meshLoop] fires
    iff [d > HEARTBEAT_INTERVAL], also across the wrap. *)
Theorem clock_wrap_safe d :
  (0 <= d < 4294967296)%Z ->
  (forall p,
     (0 <= peer_lastSeen p < 4294967296)%Z ->
     age (u32 (peer_lastSeen p + d)) p = d /\
     fresh (u32 (peer_lastSeen p + d)) p = (d <? PEER_TIMEOUT)%Z) /\
  (forall s,
     (0 <= lastHeartbeat s < 4294967296)%Z ->
     (snd (meshLoop (u32 (lastHeartbeat s + d)) s) <> [] <->
      (HEARTBEAT_INTERVAL < d)%Z)).
Proof.
  intros Hd.
  assert (Hsub : forall t0, (0 <= t0 < 4294967296)%Z -> u32 (u32 (t0 + d) - t0) = d).
  { intros t0 Ht0. unfold u32.
    rewrite Zminus_mod_idemp_l.
    replace (t0 + d - t0)%Z with d by lia. apply Z.mod_small. lia. }
  split.
  - intros p Hp. unfold fresh, age. by rewrite (Hsub _ Hp).
  - intros s Hs. unfold meshLoop. rewrite (Hsub _ Hs).
    destruct (HEARTBEAT_INTERVAL <? d)%Z eqn:E.
    + apply Z.ltb_lt in E. simpl. split; [done | discriminate].
    + apply Z.ltb_ge in E. simpl. split; [done | lia].
Qed.

Lemma clock_wrap_safe_witness :
  age 999 (mkPeer addr_B (-50) 4294967000 0 false true) = 1295%Z /\
  fresh 999 (mkPeer addr_B (-50) 4294967000 0 false true) = true.
Proof.
  destruct (clock_wrap_safe 1295) as [Hp _]; [lia|].
  apply (Hp (mkPeer addr_B (-50) 4294967000 0 false true)).
  simpl. lia.
Defined.
